(** * spotify/track.py: Track and LocalTrack over the native track resource

    A shallow embedding of [spotify.track]: the wrappers [Track] and
    [LocalTrack], their accessors, and the part of the world they act on
    (libspotify behind [lib], cffi's [ffi.gc] finalizers, the process-wide
    [spotify.session_instance]).  Python code that raises or calls into the
    native library is written in a small state-and-exception monad [M]; every
    call into [lib] is appended to a trace, so that "no native call happened"
    is a statement about the trace.  The two properties that build a [Link]
    ([link], [link_with_offset]) belong with spotify/link.py and are left
    out. *)

From Stdlib Require Import ZArith Lia.
From stdpp Require Import base tactics option list strings gmap.

Local Open Scope Z_scope.

(** ** Native data *)

(** Pointers handed out by libspotify ([sp_track *], [sp_album *],
    [sp_session *]) are opaque addresses; [ffi.NULL] is address 0. *)
Definition sp_track := Z.
Definition sp_album := Z.
Definition sp_session := Z.

(** A C [char *]: [None] is the null pointer, [Some bs] points at the
    bytes [bs] (the terminating NUL is left implicit). *)
Definition cstring := option (list Byte.byte).

(** Whether a Python integer fits a C [int] parameter.  cffi converts the
    arguments before the call; an integer outside the range makes it raise
    [OverflowError] and the C function is not called. *)
Definition fits_c_int (n : Z) : bool := (- 2 ^ 31 <=? n) && (n <? 2 ^ 31).

(** ** Python values *)

(** The classes produced by [make_enum]; [ErrorType] comes from
    [spotify/__init__.py], the other two are declared at the end of
    track.py. *)
Inductive enum_class := ErrorType | TrackAvailability | TrackOfflineStatus.

(** What [ffi.gc(ptr, destructor)] returns: a cdata object for the same
    address [cd_ptr], owning finalizer cell [cd_cell] of the world. *)
Record cdata := CData { cd_ptr : Z; cd_cell : nat }.

(** A [Track] (or [LocalTrack]) instance: its only attribute is
    [self.sp_track].  [__init__] gives every instance a cdata of its own, so
    the identity of the instance is the identity of that cdata. *)
Record Track := mkTrack { track_sp_track : cdata }.

(** An [Album] instance, as far as track.py sees it. *)
Record Album := mkAlbum { album_sp_album : cdata }.

(** The values the accessors return. *)
Inductive value :=
| VNone
| VBool (b : bool)
| VInt (n : Z)
| VUnicode (s : string)
| VEnum (cls : enum_class) (n : Z)
| VTrack (t : Track)
| VAlbum (a : Album).

(** Python truthiness, as used by [x if x else None], [not x] and
    [bool(x)]. *)
Definition truthy (v : value) : bool :=
  match v with
  | VNone => false
  | VBool b => b
  | VInt n => negb (n =? 0)
  | VUnicode s => negb (String.eqb s "")
  | VEnum _ n => negb (n =? 0)
  | VTrack _ => true
  | VAlbum _ => true
  end.

(** A cffi pointer is false exactly when it is [ffi.NULL]. *)
Definition ptr_truthy (p : Z) : bool := negb (p =? 0).

(** ** Exceptions and results *)

Inductive exn :=
| RuntimeError (msg : string)
| AttributeError (msg : string)
| OverflowError (n : Z)
| Error (error_type : value).

Inductive result (A : Type) :=
| Ok (a : A)
| Raise (e : exn).
Arguments Ok {A} a.
Arguments Raise {A} e.

(** ** The world *)

(** What libspotify answers, per call.  The library is a collaborator: its
    answers are arbitrary functions of the arguments, and they may change
    between two operations of this module (metadata arrives
    asynchronously). *)
Record native := Native {
  n_track_is_loaded : sp_track -> Z;
  n_track_error : sp_track -> Z;
  n_track_offline_get_status : sp_track -> Z;
  n_track_get_availability : sp_session -> sp_track -> Z;
  n_track_is_local : sp_session -> sp_track -> Z;
  n_track_is_autolinked : sp_session -> sp_track -> Z;
  n_track_get_playable : sp_session -> sp_track -> sp_track;
  n_track_is_placeholder : sp_track -> Z;
  n_track_is_starred : sp_session -> sp_track -> Z;
  n_track_album : sp_track -> sp_album;
  n_track_name : sp_track -> cstring;
  n_track_duration : sp_track -> Z;
  n_track_popularity : sp_track -> Z;
  n_track_disc : sp_track -> Z;
  n_track_index : sp_track -> Z;
  n_localtrack_create : cstring -> cstring -> cstring -> Z -> sp_track
}.

(** One call into [lib], with its arguments. *)
Inductive native_call :=
| c_sp_track_add_ref (p : sp_track)
| c_sp_track_release (p : sp_track)
| c_sp_track_is_loaded (p : sp_track)
| c_sp_track_error (p : sp_track)
| c_sp_track_offline_get_status (p : sp_track)
| c_sp_track_get_availability (s : sp_session) (p : sp_track)
| c_sp_track_is_local (s : sp_session) (p : sp_track)
| c_sp_track_is_autolinked (s : sp_session) (p : sp_track)
| c_sp_track_get_playable (s : sp_session) (p : sp_track)
| c_sp_track_is_placeholder (p : sp_track)
| c_sp_track_is_starred (s : sp_session) (p : sp_track)
| c_sp_track_album (p : sp_track)
| c_sp_track_name (p : sp_track)
| c_sp_track_duration (p : sp_track)
| c_sp_track_popularity (p : sp_track)
| c_sp_track_disc (p : sp_track)
| c_sp_track_index (p : sp_track)
| c_sp_localtrack_create (artist title album : cstring) (length : Z)
| c_sp_album_add_ref (a : sp_album)
| c_sp_album_release (a : sp_album).

(** The trace: calls into [lib] in the order they happen, and a mark each
    time the garbage collector fires the destructor of a cell. *)
Inductive event :=
| Call (c : native_call)
| Finalize (cell : nat).

(** The function registered with [ffi.gc]. *)
Inductive destructor := release_track | release_album.

(** A finalizer cell: the address the destructor will be called on, the
    destructor, and whether the cdata is still alive (its destructor has
    not run). *)
Record gc_cell := GcCell {
  cell_ptr : Z;
  cell_destructor : destructor;
  cell_alive : bool
}.

(** [spotify.Session], as far as track.py sees it. *)
Record Session := mkSession { session_sp_session : sp_session }.

Record world := World {
  w_native : native;
  w_track_refs : gmap Z Z;        (* reference count per sp_track *)
  w_album_refs : gmap Z Z;        (* reference count per sp_album *)
  w_session_instance : option Session;   (* spotify.session_instance *)
  w_cells : list gc_cell;         (* cdata objects made by ffi.gc *)
  w_trace : list event
}.

Definition track_refcount (w : world) (p : sp_track) : Z :=
  default 0 (w_track_refs w !! p).
Definition album_refcount (w : world) (a : sp_album) : Z :=
  default 0 (w_album_refs w !! a).

Definition set_track_refs (f : gmap Z Z -> gmap Z Z) (w : world) : world :=
  World (w_native w) (f (w_track_refs w)) (w_album_refs w)
        (w_session_instance w) (w_cells w) (w_trace w).
Definition set_album_refs (f : gmap Z Z -> gmap Z Z) (w : world) : world :=
  World (w_native w) (w_track_refs w) (f (w_album_refs w))
        (w_session_instance w) (w_cells w) (w_trace w).
Definition set_cells (f : list gc_cell -> list gc_cell) (w : world) : world :=
  World (w_native w) (w_track_refs w) (w_album_refs w)
        (w_session_instance w) (f (w_cells w)) (w_trace w).
Definition set_native (n : native) (w : world) : world :=
  World n (w_track_refs w) (w_album_refs w)
        (w_session_instance w) (w_cells w) (w_trace w).
Definition set_session_instance (s : option Session) (w : world) : world :=
  World (w_native w) (w_track_refs w) (w_album_refs w)
        s (w_cells w) (w_trace w).
Definition record_event (e : event) (w : world) : world :=
  World (w_native w) (w_track_refs w) (w_album_refs w)
        (w_session_instance w) (w_cells w) (w_trace w ++ [e]).

(** ** The monad of Python code: state and exceptions *)

Definition M (A : Type) : Type := world -> result A * world.

Definition ret {A} (a : A) : M A := fun w => (Ok a, w).
Definition raise {A} (e : exn) : M A := fun w => (Raise e, w).
Definition bind {A B} (m : M A) (k : A -> M B) : M B :=
  fun w =>
    match m w with
    | (Ok a, w') => k a w'
    | (Raise e, w') => (Raise e, w')
    end.

Declare Scope py_scope.
Delimit Scope py_scope with py.
Notation "x <- m ;; k" := (bind m (fun x => k))
  (at level 100, m at next level, right associativity) : py_scope.
Notation "m ;;; k" := (bind m (fun _ => k))
  (at level 100, right associativity) : py_scope.
Local Open Scope py_scope.

(** ** [lib]: the calls into libspotify *)

Module lib.

(** A call that only reads native state. *)
Definition query {A} (c : native_call) (read : native -> A) : M A :=
  fun w => (Ok (read (w_native w)), record_event (Call c) w).

Definition sp_track_add_ref (p : sp_track) : M unit :=
  fun w => (Ok tt,
            set_track_refs (fun r => <[p := track_refcount w p + 1]> r)
              (record_event (Call (c_sp_track_add_ref p)) w)).
Definition sp_track_release (p : sp_track) : M unit :=
  fun w => (Ok tt,
            set_track_refs (fun r => <[p := track_refcount w p - 1]> r)
              (record_event (Call (c_sp_track_release p)) w)).
Definition sp_album_add_ref (a : sp_album) : M unit :=
  fun w => (Ok tt,
            set_album_refs (fun r => <[a := album_refcount w a + 1]> r)
              (record_event (Call (c_sp_album_add_ref a)) w)).
Definition sp_album_release (a : sp_album) : M unit :=
  fun w => (Ok tt,
            set_album_refs (fun r => <[a := album_refcount w a - 1]> r)
              (record_event (Call (c_sp_album_release a)) w)).

Definition sp_track_is_loaded (p : sp_track) : M Z :=
  query (c_sp_track_is_loaded p) (fun n => n_track_is_loaded n p).
Definition sp_track_error (p : sp_track) : M Z :=
  query (c_sp_track_error p) (fun n => n_track_error n p).
Definition sp_track_offline_get_status (p : sp_track) : M Z :=
  query (c_sp_track_offline_get_status p)
        (fun n => n_track_offline_get_status n p).
Definition sp_track_get_availability (s : sp_session) (p : sp_track) : M Z :=
  query (c_sp_track_get_availability s p)
        (fun n => n_track_get_availability n s p).
Definition sp_track_is_local (s : sp_session) (p : sp_track) : M Z :=
  query (c_sp_track_is_local s p) (fun n => n_track_is_local n s p).
Definition sp_track_is_autolinked (s : sp_session) (p : sp_track) : M Z :=
  query (c_sp_track_is_autolinked s p) (fun n => n_track_is_autolinked n s p).
Definition sp_track_get_playable (s : sp_session) (p : sp_track)
  : M sp_track :=
  query (c_sp_track_get_playable s p) (fun n => n_track_get_playable n s p).
Definition sp_track_is_placeholder (p : sp_track) : M Z :=
  query (c_sp_track_is_placeholder p) (fun n => n_track_is_placeholder n p).
Definition sp_track_is_starred (s : sp_session) (p : sp_track) : M Z :=
  query (c_sp_track_is_starred s p) (fun n => n_track_is_starred n s p).
Definition sp_track_album (p : sp_track) : M sp_album :=
  query (c_sp_track_album p) (fun n => n_track_album n p).
Definition sp_track_name (p : sp_track) : M cstring :=
  query (c_sp_track_name p) (fun n => n_track_name n p).
Definition sp_track_duration (p : sp_track) : M Z :=
  query (c_sp_track_duration p) (fun n => n_track_duration n p).
Definition sp_track_popularity (p : sp_track) : M Z :=
  query (c_sp_track_popularity p) (fun n => n_track_popularity n p).
Definition sp_track_disc (p : sp_track) : M Z :=
  query (c_sp_track_disc p) (fun n => n_track_disc n p).
Definition sp_track_index (p : sp_track) : M Z :=
  query (c_sp_track_index p) (fun n => n_track_index n p).

(** [length] is declared [int]: an integer that does not fit raises before
    anything is called.  Otherwise the creation call hands back a track
    with one reference already owned by the caller. *)
Definition sp_localtrack_create (artist title album : cstring) (length : Z)
  : M sp_track :=
  fun w =>
    if fits_c_int length then
      let p := n_localtrack_create (w_native w) artist title album length in
      (Ok p,
       set_track_refs (fun r => <[p := track_refcount w p + 1]> r)
         (record_event
            (Call (c_sp_localtrack_create artist title album length)) w))
    else (Raise (OverflowError length), w).

End lib.

(** ** [ffi]: the part of cffi that track.py uses *)

Module ffi.

Definition NULL : cstring := None.

(** [ffi.new('char[]', bs)]: a fresh character array holding [bs]. *)
Definition new_char_array (bs : list Byte.byte) : cstring := Some bs.

(** [ffi.gc(ptr, destructor)]: a new cdata for the same address, whose
    collection will call [destructor(ptr)].  The new cell is appended, so
    its index is new. *)
Definition gc (p : Z) (d : destructor) : M cdata :=
  fun w => (Ok (CData p (length (w_cells w))),
            set_cells (fun cs => cs ++ [GcCell p d true]) w).

Definition run_destructor (d : destructor) (p : Z) : M unit :=
  match d with
  | release_track => lib.sp_track_release p
  | release_album => lib.sp_album_release p
  end.

(** The garbage collector reaches cell [i]: if the cdata is alive its
    destructor runs, once, and the cell is dead from then on; a dead or
    unknown cell has nothing left to run. *)
Definition collect (i : nat) (w : world) : world :=
  match w_cells w !! i with
  | Some (GcCell p d true) =>
      snd (run_destructor d p
             (record_event (Finalize i)
                (set_cells (fun cs => <[i := GcCell p d false]> cs) w)))
  | _ => w
  end.

End ffi.

Definition alive (i : nat) (w : world) : bool :=
  match w_cells w !! i with
  | Some c => cell_alive c
  | None => false
  end.

(** [spotify.session_instance], read from the module global. *)
Definition spotify_session_instance : M (option Session) :=
  fun w => (Ok (w_session_instance w), w).

(** [spotify.session_instance.sp_session]: attribute access on whatever the
    global holds at that moment. *)
Definition getattr_sp_session (s : option Session) : M sp_session :=
  match s with
  | Some sess => ret (session_sp_session sess)
  | None =>
      raise (AttributeError "'NoneType' object has no attribute 'sp_session'")
  end.

(** ** Collaborators of track.py that live elsewhere in the package *)

(** [SP_ERROR_OK] is the integer libspotify uses for "no error", the value
    behind [ErrorType.OK]; [to_unicode] and [to_bytes] are the text
    conversions of [spotify.utils] ([to_unicode] may raise, for instance on
    bytes that do not decode). *)
Class Collaborators := {
  SP_ERROR_OK : Z;
  to_unicode : cstring -> result string;
  to_bytes : string -> list Byte.byte
}.

Global Instance enum_class_eq_dec : EqDecision enum_class.
Proof. solve_decision. Defined.
Global Instance cdata_eq_dec : EqDecision cdata.
Proof. solve_decision. Defined.
Global Instance Track_eq_dec : EqDecision Track.
Proof. solve_decision. Defined.
Global Instance Album_eq_dec : EqDecision Album.
Proof. solve_decision. Defined.
Global Instance value_eq_dec : EqDecision value.
Proof. solve_decision. Defined.

(** Modelled from the spec: the enumeration classes built by [make_enum]
    over [IntEnum] (spotify/utils.py, not part of track.py).  Following
    section 4.5, decoding is permissive: [cls(n)] is a value of the class
    for every integer [n], and two values of a class are the same object
    exactly when their integers are equal.  [ErrorType.OK] is the case whose
    integer is [SP_ERROR_OK]. *)
Definition enum_new (cls : enum_class) (n : Z) : value := VEnum cls n.
Definition ErrorType_OK `{Collaborators} : value := enum_new ErrorType SP_ERROR_OK.

(** Modelled from the spec: [Error.maybe_raise] (spotify/error.py, not part
    of track.py).  Section 4.3, step 2: a non-OK code is raised as an error
    carrying that code; [ErrorType.OK] raises nothing. *)
Definition Error_maybe_raise `{Collaborators} (error_type : value) : M unit :=
  if decide (error_type = ErrorType_OK) then ret tt
  else raise (Error error_type).

(** A function of [spotify.utils] that returns or raises, run as a step. *)
Definition lift_result {A} (r : result A) : M A :=
  match r with
  | Ok a => ret a
  | Raise e => raise e
  end.

Module Album.

(** Modelled from the spec: [Album(sp_album)] (spotify/album.py, not part of
    track.py).  Section 3, NativeHandle: construction by default acquires a
    new reference and releases it when the wrapper's cdata is collected. *)
Definition __init__ (sp_album : Z) : M Album :=
  lib.sp_album_add_ref sp_album ;;;
  cd <- ffi.gc sp_album release_album ;;
  ret (mkAlbum cd).

End Album.

(** ** class Track *)

Module Track.

(** [self.sp_track], as passed to a [lib] function. *)
Definition sp_track_of (self : Track) : sp_track := cd_ptr (track_sp_track self).

(** [Track(sp_track, add_ref)]: the instance whose [__init__] has run. *)
Definition __init__ (sp_track : Z) (add_ref : bool) : M Track :=
  (if add_ref then lib.sp_track_add_ref sp_track else ret tt) ;;;
  cd <- ffi.gc sp_track release_track ;;
  ret (mkTrack cd).

Definition is_loaded (self : Track) : M value :=
  r <- lib.sp_track_is_loaded (sp_track_of self) ;;
  ret (VBool (truthy (VInt r))).

Definition error (self : Track) : M value :=
  r <- lib.sp_track_error (sp_track_of self) ;;
  ret (enum_new ErrorType r).

Section accessors.
Context `{Collaborators}.

Definition offline_status (self : Track) : M value :=
  e <- error self ;;
  Error_maybe_raise e ;;;
  r <- lib.sp_track_offline_get_status (sp_track_of self) ;;
  ret (enum_new TrackOfflineStatus r).

Definition availability (self : Track) : M value :=
  s <- spotify_session_instance ;;
  match s with
  | None => raise (RuntimeError "Session must be initialized")
  | Some _ =>
      e <- error self ;;
      Error_maybe_raise e ;;;
      s' <- spotify_session_instance ;;
      sp <- getattr_sp_session s' ;;
      r <- lib.sp_track_get_availability sp (sp_track_of self) ;;
      ret (enum_new TrackAvailability r)
  end.

Definition is_local (self : Track) : M value :=
  s <- spotify_session_instance ;;
  match s with
  | None => raise (RuntimeError "Session must be initialized")
  | Some _ =>
      e <- error self ;;
      Error_maybe_raise e ;;;
      l <- is_loaded self ;;
      if negb (truthy l) then ret VNone
      else
        s' <- spotify_session_instance ;;
        sp <- getattr_sp_session s' ;;
        r <- lib.sp_track_is_local sp (sp_track_of self) ;;
        ret (VBool (truthy (VInt r)))
  end.

Definition is_autolinked (self : Track) : M value :=
  s <- spotify_session_instance ;;
  match s with
  | None => raise (RuntimeError "Session must be initialized")
  | Some _ =>
      e <- error self ;;
      Error_maybe_raise e ;;;
      l <- is_loaded self ;;
      if negb (truthy l) then ret VNone
      else
        s' <- spotify_session_instance ;;
        sp <- getattr_sp_session s' ;;
        r <- lib.sp_track_is_autolinked sp (sp_track_of self) ;;
        ret (VBool (truthy (VInt r)))
  end.

Definition playable (self : Track) : M value :=
  s <- spotify_session_instance ;;
  match s with
  | None => raise (RuntimeError "Session must be initialized")
  | Some _ =>
      e <- error self ;;
      Error_maybe_raise e ;;;
      s' <- spotify_session_instance ;;
      sp <- getattr_sp_session s' ;;
      p <- lib.sp_track_get_playable sp (sp_track_of self) ;;
      t <- __init__ p true ;;
      ret (VTrack t)
  end.

Definition is_placeholder (self : Track) : M value :=
  e <- error self ;;
  Error_maybe_raise e ;;;
  r <- lib.sp_track_is_placeholder (sp_track_of self) ;;
  ret (VBool (truthy (VInt r))).

Definition is_starred (self : Track) : M value :=
  s <- spotify_session_instance ;;
  match s with
  | None => raise (RuntimeError "Session must be initialized")
  | Some _ =>
      e <- error self ;;
      Error_maybe_raise e ;;;
      l <- is_loaded self ;;
      if negb (truthy l) then ret VNone
      else
        s' <- spotify_session_instance ;;
        sp <- getattr_sp_session s' ;;
        r <- lib.sp_track_is_starred sp (sp_track_of self) ;;
        ret (VBool (truthy (VInt r)))
  end.

Definition album (self : Track) : M value :=
  e <- error self ;;
  Error_maybe_raise e ;;;
  sp_album <- lib.sp_track_album (sp_track_of self) ;;
  if ptr_truthy sp_album then
    a <- Album.__init__ sp_album ;;
    ret (VAlbum a)
  else ret VNone.

Definition name (self : Track) : M value :=
  e <- error self ;;
  Error_maybe_raise e ;;;
  c <- lib.sp_track_name (sp_track_of self) ;;
  name <- lift_result (to_unicode c) ;;
  ret (if truthy (VUnicode name) then VUnicode name else VNone).

Definition duration (self : Track) : M value :=
  e <- error self ;;
  Error_maybe_raise e ;;;
  duration <- lib.sp_track_duration (sp_track_of self) ;;
  ret (if truthy (VInt duration) then VInt duration else VNone).

Definition popularity (self : Track) : M value :=
  e <- error self ;;
  Error_maybe_raise e ;;;
  l <- is_loaded self ;;
  if negb (truthy l) then ret VNone
  else
    r <- lib.sp_track_popularity (sp_track_of self) ;;
    ret (VInt r).

Definition disc (self : Track) : M value :=
  e <- error self ;;
  Error_maybe_raise e ;;;
  disc <- lib.sp_track_disc (sp_track_of self) ;;
  ret (if truthy (VInt disc) then VInt disc else VNone).

Definition index (self : Track) : M value :=
  e <- error self ;;
  Error_maybe_raise e ;;;
  index <- lib.sp_track_index (sp_track_of self) ;;
  ret (if truthy (VInt index) then VInt index else VNone).

End accessors.
End Track.

(** ** class LocalTrack(Track) *)

Module LocalTrack.
Section init.
Context `{Collaborators}.

(** The [convert] lambda of [__init__]. *)
Definition convert (value : option string) : cstring :=
  match value with
  | None => ffi.NULL
  | Some v => ffi.new_char_array (to_bytes v)
  end.

(** [length] goes to the creation call as it is; the call converts it to a
    C [int] and raises, before calling, if it does not fit
    ([lib.sp_localtrack_create]). *)
Definition __init__ (artist title album : option string) (length : option Z)
  : M Track :=
  let artist := convert artist in
  let title := convert title in
  let album := convert album in
  let length := match length with None => -1 | Some n => n end in
  sp_track <- lib.sp_localtrack_create artist title album length ;;
  Track.__init__ sp_track false.

End init.
End LocalTrack.

(** ** Attribute access by name, and whole programs *)

(** The properties of [Track]; [get a t] is [getattr(t, a)]. *)
Inductive accessor :=
| a_is_loaded | a_error | a_offline_status | a_availability | a_is_local
| a_is_autolinked | a_playable | a_is_placeholder | a_is_starred | a_album
| a_name | a_duration | a_popularity | a_disc | a_index.

Definition get `{Collaborators} (a : accessor) : Track -> M value :=
  match a with
  | a_is_loaded => Track.is_loaded
  | a_error => Track.error
  | a_offline_status => Track.offline_status
  | a_availability => Track.availability
  | a_is_local => Track.is_local
  | a_is_autolinked => Track.is_autolinked
  | a_playable => Track.playable
  | a_is_placeholder => Track.is_placeholder
  | a_is_starred => Track.is_starred
  | a_album => Track.album
  | a_name => Track.name
  | a_duration => Track.duration
  | a_popularity => Track.popularity
  | a_disc => Track.disc
  | a_index => Track.index
  end.

(** The accessors that begin with the [spotify.session_instance is None]
    test, and those that call [Error.maybe_raise(self.error)]. *)
Definition session_gated : list accessor :=
  [a_availability; a_is_local; a_is_autolinked; a_playable; a_is_starred].
Definition error_gated : list accessor :=
  [a_offline_status; a_availability; a_is_local; a_is_autolinked; a_playable;
   a_is_placeholder; a_is_starred; a_album; a_name; a_duration; a_popularity;
   a_disc; a_index].

(** Whether an accessor needs [spotify.session_instance] to reach its
    native read. *)
Definition needs_session (a : accessor) : bool :=
  match a with
  | a_availability | a_is_local | a_is_autolinked | a_playable
  | a_is_starred => true
  | _ => false
  end.

(** What can happen to the world, one step at a time: the program builds a
    wrapper or reads a property, the garbage collector reaches a cdata,
    libspotify updates its metadata, the session component sets or clears
    the global. *)
Inductive op :=
| op_Track (sp_track : Z) (add_ref : bool)
| op_LocalTrack (artist title album : option string) (length : option Z)
| op_get (a : accessor) (t : Track)
| op_collect (cell : nat)
| op_native (n : native)
| op_session (s : option Session).

Definition step `{Collaborators} (o : op) (w : world) : world :=
  match o with
  | op_Track p add_ref => snd (Track.__init__ p add_ref w)
  | op_LocalTrack artist title album len =>
      snd (LocalTrack.__init__ artist title album len w)
  | op_get a t => snd (get a t w)
  | op_collect i => ffi.collect i w
  | op_native n => set_native n w
  | op_session s => set_session_instance s w
  end.

Definition run `{Collaborators} (ops : list op) (w : world) : world :=
  foldl (fun w o => step o w) w ops.

(** ** Reading the trace *)

Definition is_release (c : native_call) : bool :=
  match c with
  | c_sp_track_release _ | c_sp_album_release _ => true
  | _ => false
  end.

(** An event that is neither a destructor run nor a release. *)
Definition quiet (e : event) : bool :=
  match e with
  | Call c => negb (is_release c)
  | Finalize _ => false
  end.

(** How many times the destructor of cell [i] has run. *)
Definition finalizations (i : nat) (tr : list event) : nat :=
  length (List.filter
            (fun e => match e with Finalize j => Nat.eqb i j | _ => false end)
            tr).

(** A stretch of trace in which every release is the call made by a
    destructor run, and every destructor run makes one release. *)
Inductive paired : list event -> Prop :=
| paired_nil : paired []
| paired_quiet e tr : quiet e = true -> paired tr -> paired (e :: tr)
| paired_finalize i c tr :
    is_release c = true -> paired tr ->
    paired (Finalize i :: Call c :: tr).

(** The wrapper's finalizer cell. *)
Definition cell_of (t : Track) : nat := cd_cell (track_sp_track t).

(** The world after the error check has passed. *)
Definition checked (self : Track) (w : world) : world :=
  record_event (Call (c_sp_track_error (Track.sp_track_of self))) w.

(** What a piece of Python code of this module may do to the cells and the
    trace: allocate new cells behind the existing ones, and add quiet
    events. *)
Definition code_step (w w' : world) : Prop :=
  (exists cs, w_cells w' = w_cells w ++ cs)
  /\ (exists evs, w_trace w' = w_trace w ++ evs /\ forallb quiet evs = true).

Definition code {A} (m : M A) : Prop := forall w, code_step w (snd (m w)).

(** What any step of the world may do: the new stretch of trace is paired,
    existing cells stay, and for each of them the destructor runs in the
    stretch are exactly the passages from alive to dead. *)
Definition world_step (w w' : world) : Prop :=
  exists evs,
    w_trace w' = w_trace w ++ evs
    /\ paired evs
    /\ forall i, (i < length (w_cells w))%nat ->
         (i < length (w_cells w'))%nat
         /\ (finalizations i evs + (if alive i w' then 1 else 0)
             = (if alive i w then 1 else 0))%nat.

(** ** Bookkeeping for whole-module properties *)

(** A piece of code whose every run relates the world before to the world
    after by [R]. *)
Definition respects (R : world -> world -> Prop) {A} (m : M A) : Prop :=
  forall w, R w (snd (m w)).

(** The two properties that build a wrapper on each read. *)
Definition allocating (a : accessor) : bool :=
  match a with
  | a_playable | a_album => true
  | _ => false
  end.

(** What a read can see of the world: libspotify's answers and the session
    global. *)
Definition same_view (w w' : world) : Prop :=
  w_native w' = w_native w /\ w_session_instance w' = w_session_instance w.

(** Nothing but the trace has changed. *)
Definition only_traced (w w' : world) : Prop :=
  same_view w w'
  /\ w_track_refs w' = w_track_refs w
  /\ w_album_refs w' = w_album_refs w
  /\ w_cells w' = w_cells w.

(** The view is kept, old cells are kept, and no reference count is
    lower. *)
Definition only_acquires (w w' : world) : Prop :=
  same_view w w'
  /\ (exists cs, w_cells w' = w_cells w ++ cs)
  /\ (forall p, track_refcount w p <= track_refcount w' p)
  /\ (forall a, album_refcount w a <= album_refcount w' a).

(** A live cdata whose destructor is [sp_track_release] on [p]. *)
Definition holds_track (p : sp_track) (c : gc_cell) : bool :=
  cell_alive c
  && match cell_destructor c with release_track => true | _ => false end
  && (cell_ptr c =? p).

(** How many live wrappers hold a reference on track [p]. *)
Definition owned_track (p : sp_track) (w : world) : Z :=
  Z.of_nat (length (List.filter (holds_track p) (w_cells w))).

(** The references on [p] not accounted for by a live wrapper. *)
Definition unowned_track (p : sp_track) (w : world) : Z :=
  track_refcount w p - owned_track p w.

(** [Track(p, add_ref=False)]: the wrapper takes over a reference that the
    caller held. *)
Definition adopts (p : sp_track) (o : op) : bool :=
  match o with
  | op_Track q false => q =? p
  | _ => false
  end.

Definition adopted (p : sp_track) (ops : list op) : Z :=
  Z.of_nat (length (List.filter (adopts p) ops)).

(** Every track has as many unowned references after as before. *)
Definition balanced (w w' : world) : Prop :=
  forall p, unowned_track p w' = unowned_track p w.

(** The events a run added to the trace. *)
Definition added (w w' : world) : list event :=
  drop (length (w_trace w)) (w_trace w').

(** ** Test doubles, used to evaluate the definitions on concrete inputs *)

Module Double.

(** ASCII text; decoding the null pointer raises, as [ffi.string] does. *)
Definition collaborators : Collaborators := {|
  SP_ERROR_OK := 0;
  to_unicode c :=
    match c with
    | Some bs => Ok (String.string_of_list_byte bs)
    | None => Raise (RuntimeError "cannot use string() on NULL")
    end;
  to_bytes := String.list_byte_of_string
|}.

(** A libspotify in which track [p] is loaded exactly when [loaded p], has
    error code [err p], and every numeric field of [p] reads [field p]. *)
Definition native_of (loaded : Z -> bool) (err : Z -> Z) (field : Z -> Z)
    (nm : Z -> cstring) : native := {|
  n_track_is_loaded p := if loaded p then 1 else 0;
  n_track_error := err;
  n_track_offline_get_status := field;
  n_track_get_availability _ := field;
  n_track_is_local _ := field;
  n_track_is_autolinked _ := field;
  n_track_get_playable _ p := p + 1;
  n_track_is_placeholder := field;
  n_track_is_starred _ := field;
  n_track_album := field;
  n_track_name := nm;
  n_track_duration := field;
  n_track_popularity := field;
  n_track_disc := field;
  n_track_index := field;
  n_localtrack_create _ _ _ _ := 4096
|}.

Definition world_of (n : native) (s : option Session) : world :=
  World n ∅ ∅ s [] [].

(** Track 7 is loaded and healthy, all its numeric fields read 0 and its
    name is empty; track 8 is not loaded; track 9 carries error code 3. *)
Definition native0 : native :=
  native_of (fun p => p =? 7) (fun p => if p =? 9 then 3 else 0)
            (fun _ => 0) (fun _ => Some []).

(** Track 7 loaded with duration, disc, ... all reading 210 and the name
    "T". *)
Definition native1 : native :=
  native_of (fun p => p =? 7) (fun p => if p =? 9 then 3 else 0)
            (fun _ => 210) (fun _ => Some (String.list_byte_of_string "T")).

Definition no_session : world := world_of native0 None.
Definition with_session : world := world_of native0 (Some (mkSession 1)).
Definition with_session1 : world := world_of native1 (Some (mkSession 1)).

Definition track (p : Z) : Track := mkTrack (CData p 0).

End Double.

(** * Properties *)

(** ** The error check *)

Section gates.
Context `{Collaborators}.

Lemma maybe_raise_OK (w : world) :
  Error_maybe_raise ErrorType_OK w = (Ok tt, w).
Proof.
  unfold Error_maybe_raise. destruct (decide _) as [_|n]; [reflexivity|].
  now contradiction n.
Qed.

Lemma maybe_raise_not_OK (code : Z) (w : world) :
  code <> SP_ERROR_OK ->
  Error_maybe_raise (enum_new ErrorType code) w
  = (Raise (Error (VEnum ErrorType code)), w).
Proof.
  intros Hne. unfold Error_maybe_raise, ErrorType_OK, enum_new.
  destruct (decide _) as [e|_]; [|reflexivity].
  inversion e. contradiction.
Qed.

(** [Error.maybe_raise(self.error)] followed by the rest of a method: the
    error query is the one native call made; the rest runs only on OK. *)
Lemma error_check {A} (self : Track) (k : M A) (w : world) :
  (e <- Track.error self ;; Error_maybe_raise e ;;; k) w
  = let p := Track.sp_track_of self in
    let code := n_track_error (w_native w) p in
    let w' := record_event (Call (c_sp_track_error p)) w in
    if decide (code = SP_ERROR_OK) then k w'
    else (Raise (Error (VEnum ErrorType code)), w').
Proof.
  unfold bind at 1 2, Track.error, bind, lib.sp_track_error, lib.query, ret.
  cbn zeta. destruct (decide _) as [e|n].
  - cbn [w_native record_event]. rewrite e. fold ErrorType_OK.
    rewrite maybe_raise_OK. reflexivity.
  - rewrite maybe_raise_not_OK by exact n. reflexivity.
Qed.

Lemma is_loaded_eq (self : Track) (w : world) :
  Track.is_loaded self w
  = (Ok (VBool (negb (n_track_is_loaded (w_native w)
                        (Track.sp_track_of self) =? 0))),
     record_event (Call (c_sp_track_is_loaded (Track.sp_track_of self))) w).
Proof. reflexivity. Qed.

Lemma error_eq (self : Track) (w : world) :
  Track.error self w
  = (Ok (VEnum ErrorType (n_track_error (w_native w) (Track.sp_track_of self))),
     record_event (Call (c_sp_track_error (Track.sp_track_of self))) w).
Proof. reflexivity. Qed.

(** The session test at the head of a session-gated accessor. *)
Lemma session_check {A} (k : M A) (w : world) :
  (s <- spotify_session_instance ;;
   match s with
   | None => raise (RuntimeError "Session must be initialized")
   | Some _ => k
   end) w
  = match w_session_instance w with
    | None => (Raise (RuntimeError "Session must be initialized"), w)
    | Some _ => k w
    end.
Proof.
  unfold bind, spotify_session_instance.
  destruct (w_session_instance w); reflexivity.
Qed.

(** Unfolds an accessor up to its gates. *)
Ltac open_accessor :=
  unfold get, Track.offline_status, Track.availability, Track.is_local,
    Track.is_autolinked, Track.playable, Track.is_placeholder,
    Track.is_starred, Track.album, Track.name, Track.duration,
    Track.popularity, Track.disc, Track.index;
  rewrite ?session_check.

(** C2.  With no active session, each of availability, is_local,
    is_autolinked, playable and is_starred raises the liveness fault
    ('Session must be initialized') whatever the load and error state of the
    track, and leaves the world as it was: the trace is unchanged, so neither
    the error query nor any other native call was made. *)
Theorem session_gated_without_session
    (a : accessor) (self : Track) (w : world) :
  In a session_gated ->
  w_session_instance w = None ->
  get a self w = (Raise (RuntimeError "Session must be initialized"), w)
  /\ w_trace (snd (get a self w)) = w_trace w.
Proof.
  intros Ha Hs.
  assert (get a self w
          = (Raise (RuntimeError "Session must be initialized"), w)) as E.
  { simpl in Ha.
    destruct Ha as [<-|[<-|[<-|[<-|[<-|[]]]]]];
      open_accessor; rewrite Hs; reflexivity. }
  rewrite E. split; reflexivity.
Qed.

(** C3 (amended).  offline_status has no session test: with no active
    session it still starts with the error check, raises the native error
    when the code is not OK, and otherwise proceeds to the native read and
    returns its TrackOfflineStatus.  The liveness fault is never raised. *)
Theorem offline_status_without_session (self : Track) (w : world) :
  w_session_instance w = None ->
  let p := Track.sp_track_of self in
  let code := n_track_error (w_native w) p in
  let w1 := record_event (Call (c_sp_track_error p)) w in
  Track.offline_status self w
  = (if decide (code = SP_ERROR_OK) then
       (Ok (VEnum TrackOfflineStatus
              (n_track_offline_get_status (w_native w) p)),
        record_event (Call (c_sp_track_offline_get_status p)) w1)
     else (Raise (Error (VEnum ErrorType code)), w1))
  /\ fst (Track.offline_status self w)
     <> Raise (RuntimeError "Session must be initialized").
Proof.
  intros _ p code w1.
  assert (Track.offline_status self w
  = (if decide (code = SP_ERROR_OK) then
       (Ok (VEnum TrackOfflineStatus
              (n_track_offline_get_status (w_native w) p)),
        record_event (Call (c_sp_track_offline_get_status p)) w1)
     else (Raise (Error (VEnum ErrorType code)), w1))) as E.
  { open_accessor. rewrite error_check. cbn zeta. fold p code w1.
    destruct (decide _); reflexivity. }
  split; [exact E|]. rewrite E.
  destruct (decide _); discriminate.
Qed.

(** C4.  When error() is a non-OK code (and a session is active, for the
    accessors that test it first), every accessor behind the error check
    raises an error carrying that code, and the error query is the only
    native call it made: no field was read.  is_loaded and error are not
    behind the check: they return the load state and the code. *)
Theorem error_gated_on_error
    (a : accessor) (self : Track) (w : world) (code : Z) :
  In a error_gated ->
  n_track_error (w_native w) (Track.sp_track_of self) = code ->
  code <> SP_ERROR_OK ->
  (needs_session a = true -> w_session_instance w <> None) ->
  let p := Track.sp_track_of self in
  get a self w
  = (Raise (Error (VEnum ErrorType code)),
     record_event (Call (c_sp_track_error p)) w)
  /\ w_trace (snd (get a self w)) = w_trace w ++ [Call (c_sp_track_error p)]
  /\ get a_is_loaded self w
     = (Ok (VBool (negb (n_track_is_loaded (w_native w) p =? 0))),
        record_event (Call (c_sp_track_is_loaded p)) w)
  /\ get a_error self w
     = (Ok (VEnum ErrorType code), record_event (Call (c_sp_track_error p)) w).
Proof.
  intros Ha Hcode Hne Hs p.
  assert (get a self w
          = (Raise (Error (VEnum ErrorType code)),
             record_event (Call (c_sp_track_error p)) w)) as E.
  { simpl in Ha.
    repeat (destruct Ha as [<-|Ha]); try contradiction;
      open_accessor;
      try (destruct (w_session_instance w) eqn:Es;
           [|exfalso; now apply Hs]);
      rewrite error_check; cbn zeta; rewrite Hcode;
      (destruct (decide _) as [e|_]; [contradiction|reflexivity]). }
  rewrite E. repeat split.
  unfold get. rewrite error_eq, Hcode. reflexivity.
Qed.

(** C5.  For a track that is not loaded, with an active session and
    error() == OK, is_local, is_autolinked and is_starred return None (and
    so not False); the native flag is not read. *)
Theorem unloaded_flags_are_None
    (a : accessor) (self : Track) (w : world) (sess : Session) :
  In a [a_is_local; a_is_autolinked; a_is_starred] ->
  w_session_instance w = Some sess ->
  n_track_error (w_native w) (Track.sp_track_of self) = SP_ERROR_OK ->
  n_track_is_loaded (w_native w) (Track.sp_track_of self) = 0 ->
  let p := Track.sp_track_of self in
  get a self w
  = (Ok VNone,
     record_event (Call (c_sp_track_is_loaded p))
       (record_event (Call (c_sp_track_error p)) w))
  /\ fst (get a self w) <> Ok (VBool false).
Proof.
  intros Ha Hs Herr Hl p.
  assert (get a self w
          = (Ok VNone,
             record_event (Call (c_sp_track_is_loaded p))
               (record_event (Call (c_sp_track_error p)) w))) as E.
  { simpl in Ha.
    repeat (destruct Ha as [<-|Ha]); try contradiction;
      open_accessor; rewrite Hs, error_check; cbn zeta;
      (destruct (decide _) as [_|n]; [|contradiction]);
      unfold bind; rewrite is_loaded_eq;
      cbn [w_native record_event]; rewrite Hl; reflexivity. }
  rewrite E. split; [reflexivity|discriminate].
Qed.

(** C6.  With error() == OK: duration, disc and index return None exactly
    when the native integer is zero and that integer otherwise; name returns
    None exactly when the decoded native string is empty and the decoded
    string otherwise; album returns None exactly when the native album
    pointer is null and otherwise an Album built over that pointer.  The
    result is a function of the native read alone, so an unset field and a
    field that is really zero or empty cannot be told apart. *)
Theorem empty_native_reads_are_None (self : Track) (w : world) :
  n_track_error (w_native w) (Track.sp_track_of self) = SP_ERROR_OK ->
  let p := Track.sp_track_of self in
  let n := w_native w in
  let w1 := checked self w in
  (Track.duration self w
   = (Ok (if decide (n_track_duration n p = 0) then VNone
          else VInt (n_track_duration n p)),
      record_event (Call (c_sp_track_duration p)) w1))
  /\ (Track.disc self w
      = (Ok (if decide (n_track_disc n p = 0) then VNone
             else VInt (n_track_disc n p)),
         record_event (Call (c_sp_track_disc p)) w1))
  /\ (Track.index self w
      = (Ok (if decide (n_track_index n p = 0) then VNone
             else VInt (n_track_index n p)),
         record_event (Call (c_sp_track_index p)) w1))
  /\ (forall s, to_unicode (n_track_name n p) = Ok s ->
      Track.name self w
      = (Ok (if decide (s = "") then VNone else VUnicode s),
         record_event (Call (c_sp_track_name p)) w1))
  /\ (let a := n_track_album n p in
      let w2 := record_event (Call (c_sp_track_album p)) w1 in
      Track.album self w
      = if decide (a = 0) then (Ok VNone, w2)
        else (Ok (VAlbum (mkAlbum (CData a (length (w_cells w))))),
              snd (Album.__init__ a w2))).
Proof.
  intros Herr p n w1.
  assert (forall A (k : M A),
            (e <- Track.error self ;; Error_maybe_raise e ;;; k) w = k w1)
    as Hcheck.
  { intros A k. rewrite error_check. cbn zeta.
    destruct (decide _) as [_|ne]; [reflexivity|contradiction]. }
  repeat apply conj.
  - unfold Track.duration. rewrite Hcheck. unfold bind; cbn.
    fold p n. destruct (decide _) as [->|ne]; [reflexivity|].
    apply Z.eqb_neq in ne. rewrite ne. reflexivity.
  - unfold Track.disc. rewrite Hcheck. unfold bind; cbn.
    fold p n. destruct (decide _) as [->|ne]; [reflexivity|].
    apply Z.eqb_neq in ne. rewrite ne. reflexivity.
  - unfold Track.index. rewrite Hcheck. unfold bind; cbn.
    fold p n. destruct (decide _) as [->|ne]; [reflexivity|].
    apply Z.eqb_neq in ne. rewrite ne. reflexivity.
  - intros s Hs. unfold Track.name. rewrite Hcheck.
    unfold bind, lib.sp_track_name, lib.query. cbn [w_native w1 checked record_event].
    fold p n. rewrite Hs. cbn [lift_result ret truthy].
    destruct (decide _) as [->|ne]; [reflexivity|].
    apply String.eqb_neq in ne. rewrite ne. reflexivity.
  - cbn zeta. unfold Track.album. rewrite Hcheck.
    unfold bind at 1. unfold lib.sp_track_album, lib.query.
    cbn [w_native w1 checked record_event]. fold p n. unfold ptr_truthy.
    destruct (decide _) as [->|ne]; [reflexivity|].
    apply Z.eqb_neq in ne. rewrite ne. reflexivity.
Qed.

(** C7 (amended).  With error() == OK, popularity returns None whenever the
    track is not loaded; when it is loaded it returns the native popularity
    as read, zero included (0 is returned as 0, not as None), which is in
    0-100 whenever the native value is. *)
Theorem popularity_when_OK (self : Track) (w : world) :
  n_track_error (w_native w) (Track.sp_track_of self) = SP_ERROR_OK ->
  let p := Track.sp_track_of self in
  let n := w_native w in
  let w2 := record_event (Call (c_sp_track_is_loaded p)) (checked self w) in
  (n_track_is_loaded n p = 0 -> Track.popularity self w = (Ok VNone, w2))
  /\ (n_track_is_loaded n p <> 0 ->
      Track.popularity self w
      = (Ok (VInt (n_track_popularity n p)),
         record_event (Call (c_sp_track_popularity p)) w2)
      /\ (n_track_popularity n p = 0 ->
          fst (Track.popularity self w) = Ok (VInt 0))
      /\ (0 <= n_track_popularity n p <= 100 ->
          exists v, fst (Track.popularity self w) = Ok (VInt v)
                    /\ 0 <= v <= 100)).
Proof.
  intros Herr p n w2.
  assert (Track.popularity self w
          = if decide (n_track_is_loaded n p = 0) then (Ok VNone, w2)
            else (Ok (VInt (n_track_popularity n p)),
                  record_event (Call (c_sp_track_popularity p)) w2)) as E.
  { unfold Track.popularity. rewrite error_check. cbn zeta.
    destruct (decide (_ = SP_ERROR_OK)) as [_|ne]; [|contradiction].
    unfold bind at 1. rewrite is_loaded_eq.
    cbn [w_native record_event truthy]. fold p n.
    destruct (decide _) as [->|ne]; [reflexivity|].
    apply Z.eqb_neq in ne. rewrite ne. reflexivity. }
  rewrite E. split; intros Hl.
  - destruct (decide _); [reflexivity|contradiction].
  - destruct (decide _); [contradiction|].
    split; [reflexivity|]. split.
    + intros ->. reflexivity.
    + intros Hr. eexists. split; [reflexivity|exact Hr].
Qed.

(** C10.  is_placeholder has no session test and no load test: whatever
    spotify.session_instance holds and whether or not the track is loaded,
    it raises the native error when the code is not OK and otherwise reads
    the native flag and returns it as a bool.  It never raises the liveness
    fault and never returns None. *)
Theorem is_placeholder_only_error_gated (self : Track) (w : world) :
  let p := Track.sp_track_of self in
  let code := n_track_error (w_native w) p in
  let w1 := checked self w in
  Track.is_placeholder self w
  = (if decide (code = SP_ERROR_OK) then
       (Ok (VBool (negb (n_track_is_placeholder (w_native w) p =? 0))),
        record_event (Call (c_sp_track_is_placeholder p)) w1)
     else (Raise (Error (VEnum ErrorType code)), w1))
  /\ fst (Track.is_placeholder self w)
     <> Raise (RuntimeError "Session must be initialized")
  /\ fst (Track.is_placeholder self w) <> Ok VNone
  /\ (forall s, fst (Track.is_placeholder self (set_session_instance s w))
                = fst (Track.is_placeholder self w)).
Proof.
  intros p code w1.
  assert (forall w, Track.is_placeholder self w
          = (if decide (n_track_error (w_native w) p = SP_ERROR_OK) then
               (Ok (VBool (negb (n_track_is_placeholder (w_native w) p =? 0))),
                record_event (Call (c_sp_track_is_placeholder p))
                  (checked self w))
             else (Raise (Error (VEnum ErrorType (n_track_error (w_native w) p))),
                   checked self w))) as E.
  { intros w0. unfold Track.is_placeholder. rewrite error_check. cbn zeta.
    fold p. destruct (decide _); reflexivity. }
  split; [apply E|]. split; [|split].
  - rewrite E. destruct (decide _); discriminate.
  - rewrite E. destruct (decide _); discriminate.
  - intros s. rewrite !E. cbn [w_native set_session_instance].
    destruct (decide _); reflexivity.
Qed.

(** C8.  LocalTrack(artist, title, album, length): a string argument that
    is None reaches the native creation call as NULL and a given string as
    its encoded bytes; a None length reaches it as -1 (which fits a C int;
    it is never turned into 0); the handle the call returns is wrapped with
    add_ref=False: the creation call is the only native call, the reference
    counts are those it left, and the handle's release is registered with
    ffi.gc.  This is so for every length that fits the C int parameter of
    the creation call; a length that does not fit raises OverflowError
    before any native call, and nothing is built. *)
Theorem LocalTrack_init_spec
    (artist title album : option string) (len : option Z) (w : world) :
  let c_artist := option_map to_bytes artist in
  let c_title := option_map to_bytes title in
  let c_album := option_map to_bytes album in
  let c_len := default (-1) len in
  let r := LocalTrack.__init__ artist title album len w in
  LocalTrack.convert None = ffi.NULL
  /\ (forall v, LocalTrack.convert (Some v) = Some (to_bytes v))
  /\ (len = None -> c_len = -1 /\ fits_c_int c_len = true)
  /\ (fits_c_int c_len = true ->
      let created := lib.sp_localtrack_create c_artist c_title c_album c_len w in
      let p := n_localtrack_create (w_native w) c_artist c_title c_album c_len in
      fst created = Ok p
      /\ r = (Ok (mkTrack (CData p (length (w_cells w)))),
              snd (Track.__init__ p false (snd created)))
      /\ w_trace (snd r)
         = w_trace w
           ++ [Call (c_sp_localtrack_create c_artist c_title c_album c_len)]
      /\ w_track_refs (snd r) = w_track_refs (snd created)
      /\ w_cells (snd r) = w_cells w ++ [GcCell p release_track true])
  /\ (fits_c_int c_len = false -> r = (Raise (OverflowError c_len), w)).
Proof.
  cbn zeta. split; [reflexivity|]. split; [reflexivity|].
  split; [intros ->; split; reflexivity|].
  unfold LocalTrack.__init__, bind, lib.sp_localtrack_create.
  assert (LocalTrack.convert artist = option_map to_bytes artist) as ->
    by (destruct artist; reflexivity).
  assert (LocalTrack.convert title = option_map to_bytes title) as ->
    by (destruct title; reflexivity).
  assert (LocalTrack.convert album = option_map to_bytes album) as ->
    by (destruct album; reflexivity).
  assert (match len with Some n => n | None => -1 end = default (-1) len)
    as -> by (destruct len; reflexivity).
  split; intros Hfit; rewrite Hfit; [|reflexivity].
  repeat split.
Qed.

(** C9.  With an active session and error() == OK, playable returns a Track
    built with add_ref=True over the handle that sp_track_get_playable gives
    for the session and self: one add_ref on that handle, its reference
    count one higher, a finalizer cell of its own, and so an object other
    than self. *)
Theorem playable_new_wrapper (self : Track) (w : world) (sess : Session) :
  w_session_instance w = Some sess ->
  n_track_error (w_native w) (Track.sp_track_of self) = SP_ERROR_OK ->
  (cell_of self < length (w_cells w))%nat ->
  let p := Track.sp_track_of self in
  let s := session_sp_session sess in
  let q := n_track_get_playable (w_native w) s p in
  let w2 := record_event (Call (c_sp_track_get_playable s p)) (checked self w) in
  let t := mkTrack (CData q (length (w_cells w))) in
  let r := Track.playable self w in
  r = (Ok (VTrack t), snd (Track.__init__ q true w2))
  /\ Track.__init__ q true w2 = (Ok t, snd r)
  /\ Track.sp_track_of t = q
  /\ cell_of t <> cell_of self
  /\ t <> self
  /\ w_trace (snd r)
     = w_trace w ++ [Call (c_sp_track_error p);
                     Call (c_sp_track_get_playable s p);
                     Call (c_sp_track_add_ref q)]
  /\ track_refcount (snd r) q = track_refcount w q + 1
  /\ w_cells (snd r) = w_cells w ++ [GcCell q release_track true]
  /\ alive (cell_of t) (snd r) = true.
Proof.
  intros Hs Herr Hcell p s q w2 t r.
  assert (r = (Ok (VTrack t), snd (Track.__init__ q true w2))) as E.
  { subst r. unfold Track.playable. rewrite session_check, Hs, error_check.
    cbn zeta. destruct (decide _) as [_|ne]; [|contradiction].
    unfold bind at 1. cbn [spotify_session_instance w_session_instance
                           record_event].
    rewrite Hs. reflexivity. }
  assert (cell_of t <> cell_of self) as Hne.
  { subst t. unfold cell_of at 1. cbn. lia. }
  rewrite E. cbn [snd]. repeat apply conj; try reflexivity.
  - exact Hne.
  - intros ->. now apply Hne.
  - cbn. rewrite <- !app_assoc. reflexivity.
  - unfold track_refcount. cbn. rewrite lookup_insert_eq. reflexivity.
  - unfold alive. cbn. rewrite lookup_app_r by lia.
    rewrite Nat.sub_diag. reflexivity.
Qed.

End gates.

(** ** Finalizers: what Python code and the collector do to cells and trace *)

Lemma finalizations_app (i : nat) (tr1 tr2 : list event) :
  finalizations i (tr1 ++ tr2)
  = (finalizations i tr1 + finalizations i tr2)%nat.
Proof.
  unfold finalizations. rewrite List.filter_app, length_app. reflexivity.
Qed.

Lemma finalizations_quiet (i : nat) (evs : list event) :
  forallb quiet evs = true -> finalizations i evs = 0%nat.
Proof.
  unfold finalizations. induction evs as [|e evs IH]; [reflexivity|].
  cbn [forallb]. intros [He Hevs]%andb_prop.
  destruct e as [c|j]; [|discriminate]. cbn. now apply IH.
Qed.

Lemma paired_quiet_all (evs : list event) :
  forallb quiet evs = true -> paired evs.
Proof.
  induction evs as [|e evs IH]; [constructor|].
  cbn [forallb]. intros [He Hevs]%andb_prop.
  apply paired_quiet; [exact He|now apply IH].
Qed.

Lemma paired_app (tr1 tr2 : list event) :
  paired tr1 -> paired tr2 -> paired (tr1 ++ tr2).
Proof.
  intros H1 H2. induction H1 as [|e tr Hq _ IH|i c tr Hc _ IH]; cbn.
  - exact H2.
  - now apply paired_quiet.
  - now apply paired_finalize.
Qed.

Lemma alive_old_cell (i : nat) (w w' : world) (cs : list gc_cell) :
  w_cells w' = w_cells w ++ cs ->
  (i < length (w_cells w))%nat ->
  alive i w' = alive i w.
Proof.
  intros E Hi. unfold alive. rewrite E, lookup_app_l by exact Hi. reflexivity.
Qed.

Lemma code_step_refl (w : world) : code_step w w.
Proof.
  split; [exists []|exists []]; rewrite app_nil_r; auto.
Qed.

Lemma code_step_trans (w1 w2 w3 : world) :
  code_step w1 w2 -> code_step w2 w3 -> code_step w1 w3.
Proof.
  intros [[cs1 C1] [e1 [T1 Q1]]] [[cs2 C2] [e2 [T2 Q2]]]. split.
  - exists (cs1 ++ cs2). rewrite C2, C1, app_assoc. reflexivity.
  - exists (e1 ++ e2). rewrite T2, T1, app_assoc, forallb_app, Q1, Q2. auto.
Qed.

Lemma code_ret {A} (a : A) : code (ret a).
Proof. intros w. apply code_step_refl. Qed.

Lemma code_raise {A} (e : exn) : code (@raise A e).
Proof. intros w. apply code_step_refl. Qed.

Lemma code_bind {A B} (m : M A) (k : A -> M B) :
  code m -> (forall a, code (k a)) -> code (bind m k).
Proof.
  intros Hm Hk w. unfold bind. specialize (Hm w).
  destruct (m w) as [[a|e] w']; cbn [snd] in *.
  - eapply code_step_trans; [exact Hm|apply Hk].
  - exact Hm.
Qed.

(** A world that differs from [w] by refcounts and one quiet event. *)
Lemma code_step_event (w w' : world) (e : event) :
  w_cells w' = w_cells w -> w_trace w' = w_trace w ++ [e] ->
  quiet e = true -> code_step w w'.
Proof.
  intros C T Q. split.
  - exists []. rewrite app_nil_r. exact C.
  - exists [e]. split; [exact T|]. cbn. rewrite Q. reflexivity.
Qed.

Lemma code_query {A} (c : native_call) (read : native -> A) :
  is_release c = false -> code (lib.query c read).
Proof.
  intros Hc w. apply (code_step_event _ _ (Call c)); try reflexivity.
  cbn. rewrite Hc. reflexivity.
Qed.

Lemma code_sp_track_add_ref (p : sp_track) : code (lib.sp_track_add_ref p).
Proof. intros w. now apply (code_step_event _ _ (Call (c_sp_track_add_ref p))). Qed.

Lemma code_sp_album_add_ref (a : sp_album) : code (lib.sp_album_add_ref a).
Proof. intros w. now apply (code_step_event _ _ (Call (c_sp_album_add_ref a))). Qed.

Lemma code_sp_localtrack_create (a t al : cstring) (n : Z) :
  code (lib.sp_localtrack_create a t al n).
Proof.
  intros w. unfold lib.sp_localtrack_create.
  destruct (fits_c_int n); [|apply code_step_refl].
  now apply (code_step_event _ _ (Call (c_sp_localtrack_create a t al n))).
Qed.

Lemma code_gc (p : Z) (d : destructor) : code (ffi.gc p d).
Proof.
  intros w. split.
  - eexists. reflexivity.
  - exists []. rewrite app_nil_r. auto.
Qed.

Lemma code_session_instance : code spotify_session_instance.
Proof. intros w. apply code_step_refl. Qed.

Lemma code_getattr_sp_session (s : option Session) :
  code (getattr_sp_session s).
Proof. destruct s; [apply code_ret|apply code_raise]. Qed.

Lemma code_lift_result {A} (r : result A) : code (lift_result r).
Proof. destruct r; [apply code_ret|apply code_raise]. Qed.

Lemma code_maybe_raise `{Collaborators} (v : value) :
  code (Error_maybe_raise v).
Proof.
  unfold Error_maybe_raise.
  destruct (decide _); [apply code_ret|apply code_raise].
Qed.

Create HintDb code_db.
#[local] Hint Resolve code_ret code_raise code_sp_track_add_ref
  code_sp_album_add_ref code_sp_localtrack_create code_gc
  code_session_instance code_getattr_sp_session code_lift_result
  @code_maybe_raise : code_db.

(** Walks through a method body: binds, branches, and the primitives. *)
Ltac code_walk :=
  repeat first
    [ apply code_bind; [|intros ?]
    | apply code_query; reflexivity
    | solve [auto with code_db]
    | match goal with
      | |- code (match ?x with _ => _ end) => destruct x
      end ].

Lemma code_Track_init (p : Z) (add_ref : bool) :
  code (Track.__init__ p add_ref).
Proof. unfold Track.__init__. code_walk. Qed.

Lemma code_Album_init (a : Z) : code (Album.__init__ a).
Proof. unfold Album.__init__. code_walk. Qed.

Lemma code_is_loaded (t : Track) : code (Track.is_loaded t).
Proof. unfold Track.is_loaded, lib.sp_track_is_loaded. code_walk. Qed.

Lemma code_error (t : Track) : code (Track.error t).
Proof. unfold Track.error, lib.sp_track_error. code_walk. Qed.

#[local] Hint Resolve code_Track_init code_Album_init code_is_loaded
  code_error : code_db.

Lemma code_get `{Collaborators} (a : accessor) (t : Track) : code (get a t).
Proof.
  destruct a; cbn [get]; auto with code_db;
    unfold Track.offline_status, Track.availability, Track.is_local,
      Track.is_autolinked, Track.playable, Track.is_placeholder,
      Track.is_starred, Track.album, Track.name, Track.duration,
      Track.popularity, Track.disc, Track.index,
      lib.sp_track_offline_get_status, lib.sp_track_get_availability,
      lib.sp_track_is_local, lib.sp_track_is_autolinked,
      lib.sp_track_get_playable, lib.sp_track_is_placeholder,
      lib.sp_track_is_starred, lib.sp_track_album, lib.sp_track_name,
      lib.sp_track_duration, lib.sp_track_popularity, lib.sp_track_disc,
      lib.sp_track_index;
    code_walk.
Qed.

Lemma code_LocalTrack_init `{Collaborators}
    (artist title album : option string) (len : option Z) :
  code (LocalTrack.__init__ artist title album len).
Proof. unfold LocalTrack.__init__. cbn zeta. code_walk. Qed.

(** ** The life of a finalizer cell *)

Lemma world_step_refl (w : world) : world_step w w.
Proof.
  exists []. rewrite app_nil_r. split; [reflexivity|].
  split; [constructor|]. intros i Hi. split; [exact Hi|reflexivity].
Qed.

Lemma world_step_trans (w1 w2 w3 : world) :
  world_step w1 w2 -> world_step w2 w3 -> world_step w1 w3.
Proof.
  intros [e1 [T1 [P1 K1]]] [e2 [T2 [P2 K2]]].
  exists (e1 ++ e2). split; [|split].
  - rewrite T2, T1, app_assoc. reflexivity.
  - now apply paired_app.
  - intros i Hi. destruct (K1 i Hi) as [Hi2 E1].
    destruct (K2 i Hi2) as [Hi3 E2]. split; [exact Hi3|].
    rewrite finalizations_app. lia.
Qed.

(** Python code runs no destructor and kills no cell. *)
Lemma code_step_world_step (w w' : world) :
  code_step w w' -> world_step w w'.
Proof.
  intros [[cs C] [evs [T Q]]]. exists evs. split; [exact T|]. split.
  - now apply paired_quiet_all.
  - intros i Hi. split.
    + rewrite C, length_app. lia.
    + rewrite (finalizations_quiet i evs Q).
      rewrite (alive_old_cell i w w' cs C Hi). reflexivity.
Qed.

(** What collecting a live cell does: the mark, then the one release call
    on the address registered with [ffi.gc], and the cell is dead. *)
Lemma collect_alive (i : nat) (w : world) (p : Z) (d : destructor) :
  w_cells w !! i = Some (GcCell p d true) ->
  let w' := ffi.collect i w in
  w_cells w' = <[i := GcCell p d false]> (w_cells w)
  /\ w_trace w'
     = w_trace w ++ [Finalize i;
                     Call (match d with
                           | release_track => c_sp_track_release p
                           | release_album => c_sp_album_release p
                           end)].
Proof.
  intros Hc. unfold ffi.collect. rewrite Hc.
  destruct d; cbn; rewrite <- app_assoc; split; reflexivity.
Qed.

Lemma collect_not_alive (i : nat) (w : world) :
  alive i w = false -> ffi.collect i w = w.
Proof.
  unfold alive, ffi.collect.
  destruct (w_cells w !! i) as [[p d [|]]|]; [discriminate|reflexivity..].
Qed.

Lemma collect_world_step (i : nat) (w : world) :
  world_step w (ffi.collect i w).
Proof.
  destruct (alive i w) eqn:Ha.
  2: { rewrite collect_not_alive by exact Ha. apply world_step_refl. }
  unfold alive in Ha.
  destruct (w_cells w !! i) as [[p d a]|] eqn:Hc; [|discriminate].
  cbn in Ha. subst a.
  destruct (collect_alive i w p d Hc) as [C T].
  eexists. split; [exact T|]. split.
  - apply paired_finalize; [destruct d; reflexivity|constructor].
  - intros j Hj. split.
    + rewrite C, length_insert. exact Hj.
    + unfold alive. rewrite C. unfold finalizations. cbn [List.filter].
      destruct (decide (j = i)) as [->|Hne].
      * rewrite Nat.eqb_refl, list_lookup_insert_eq by exact Hj.
        rewrite Hc. reflexivity.
      * rewrite list_lookup_insert_ne by congruence.
        apply Nat.eqb_neq in Hne. rewrite Hne. cbn.
        destruct (w_cells w !! j) as [[? ? [|]]|]; reflexivity.
Qed.

Lemma step_world_step `{Collaborators} (o : op) (w : world) :
  world_step w (step o w).
Proof.
  destruct o; cbn [step].
  - apply code_step_world_step, code_Track_init.
  - apply code_step_world_step, code_LocalTrack_init.
  - apply code_step_world_step, code_get.
  - apply collect_world_step.
  - apply code_step_world_step.
    split; [exists []|exists []]; rewrite app_nil_r; auto.
  - apply code_step_world_step.
    split; [exists []|exists []]; rewrite app_nil_r; auto.
Qed.

Lemma run_world_step `{Collaborators} (ops : list op) (w : world) :
  world_step w (run ops w).
Proof.
  revert w. induction ops as [|o ops IH]; intros w.
  - apply world_step_refl.
  - cbn. eapply world_step_trans; [apply step_world_step|apply IH].
Qed.

(** Once dead, a cell stays dead. *)
Lemma world_step_alive (w w' : world) (i : nat) :
  world_step w w' -> (i < length (w_cells w))%nat ->
  alive i w' = true -> alive i w = true.
Proof.
  intros [evs [_ [_ K]]] Hi Ha. destruct (K i Hi) as [_ E].
  rewrite Ha in E. destruct (alive i w); [reflexivity|lia].
Qed.

(** A cell keeps its address and destructor for as long as it is alive. *)
Lemma step_keeps_live_cell `{Collaborators}
    (o : op) (w : world) (i : nat) (c : gc_cell) :
  w_cells w !! i = Some c ->
  alive i (step o w) = true ->
  w_cells (step o w) !! i = Some c.
Proof.
  intros L Ha. assert (i < length (w_cells w))%nat as Hi
    by (apply lookup_lt_Some in L; exact L).
  assert (forall w', code_step w w' -> w_cells w' !! i = Some c) as Hcode.
  { intros w' [[cs Cs] _]. rewrite Cs, lookup_app_l by exact Hi. exact L. }
  destruct o as [q ar|ar ti al ln|a t|j|n|s]; cbn [step] in *.
  - apply Hcode, code_Track_init.
  - apply Hcode, code_LocalTrack_init.
  - apply Hcode, code_get.
  - destruct (alive j w) eqn:Hj.
    + unfold alive in Hj, Ha.
      destruct (w_cells w !! j) as [[q d b]|] eqn:Lj; [|discriminate].
      cbn in Hj. subst b.
      destruct (collect_alive j w q d Lj) as [Cj _].
      rewrite Cj in Ha |- *.
      destruct (decide (j = i)) as [->|Hne].
      * rewrite list_lookup_insert_eq in Ha by exact Hi. discriminate.
      * rewrite list_lookup_insert_ne by exact Hne. exact L.
    + rewrite collect_not_alive by exact Hj. exact L.
  - exact L.
  - exact L.
Qed.

Lemma run_keeps_live_cell `{Collaborators}
    (ops : list op) (w : world) (i : nat) (c : gc_cell) :
  w_cells w !! i = Some c ->
  alive i (run ops w) = true ->
  w_cells (run ops w) !! i = Some c.
Proof.
  revert w. induction ops as [|o ops IH]; intros w L Ha; [exact L|].
  cbn in Ha |- *. fold (run ops (step o w)) in Ha |- *.
  apply IH; [|exact Ha].
  apply step_keeps_live_cell; [exact L|].
  apply (world_step_alive (step o w) (run ops (step o w)) i);
    [apply run_world_step| |exact Ha].
  destruct (step_world_step o w) as [? [_ [_ K]]].
  apply K. apply lookup_lt_Some in L. exact L.
Qed.

Lemma refcount_after_release (w : world) (p : sp_track) :
  track_refcount (snd (lib.sp_track_release p w)) p = track_refcount w p - 1.
Proof.
  unfold track_refcount at 1. cbn. rewrite lookup_insert_eq. reflexivity.
Qed.

(** C1.  Track(sp_track, add_ref) raises the reference count of the
    resource by exactly one when add_ref is true (one sp_track_add_ref call)
    and leaves it alone when add_ref is false (no native call); in both
    modes the wrapper's release is registered with ffi.gc and the wrapper
    is alive.  Whatever happens next (constructions, property reads,
    collections of this or other wrappers, native updates, session
    changes): every release in the trace is the call of a destructor run;
    the wrapper's destructor has run zero times while the wrapper is alive
    and exactly once when it no longer is; collecting the live wrapper
    makes exactly one sp_track_release call on its resource, lowering the
    count by exactly one, and collecting it again does nothing. *)
Theorem reference_lifecycle `{Collaborators}
    (w : world) (p : sp_track) (add_ref : bool) :
  exists (t : Track) (w1 : world),
    Track.__init__ p add_ref w = (Ok t, w1)
    /\ Track.sp_track_of t = p
    /\ w_cells w1 = w_cells w ++ [GcCell p release_track true]
    /\ alive (cell_of t) w1 = true
    /\ track_refcount w1 p = track_refcount w p + (if add_ref then 1 else 0)
    /\ w_trace w1
       = w_trace w ++ (if add_ref then [Call (c_sp_track_add_ref p)] else [])
    /\ forall ops : list op,
         let w2 := run ops w1 in
         let w3 := ffi.collect (cell_of t) w2 in
         (exists evs,
             w_trace w2 = w_trace w1 ++ evs
             /\ paired evs
             /\ finalizations (cell_of t) evs
                = if alive (cell_of t) w2 then 0%nat else 1%nat)
         /\ (alive (cell_of t) w2 = true ->
             w_trace w3
             = w_trace w2 ++ [Finalize (cell_of t);
                              Call (c_sp_track_release p)]
             /\ track_refcount w3 p = track_refcount w2 p - 1
             /\ alive (cell_of t) w3 = false
             /\ ffi.collect (cell_of t) w3 = w3)
         /\ (alive (cell_of t) w2 = false -> w3 = w2).
Proof.
  set (t := mkTrack (CData p (length (w_cells w)))).
  exists t, (snd (Track.__init__ p add_ref w)).
  set (w1 := snd (Track.__init__ p add_ref w)).
  assert (w_cells w1 = w_cells w ++ [GcCell p release_track true]) as C1.
  { subst w1. destruct add_ref; reflexivity. }
  assert (w1.(w_cells) !! cell_of t = Some (GcCell p release_track true))
    as L1.
  { rewrite C1. unfold cell_of, t. cbn.
    rewrite lookup_app_r by lia. rewrite Nat.sub_diag. reflexivity. }
  assert (alive (cell_of t) w1 = true) as A1.
  { unfold alive. rewrite L1. reflexivity. }
  split; [subst w1; destruct add_ref; reflexivity|].
  split; [reflexivity|]. split; [exact C1|]. split; [exact A1|].
  split.
  { subst w1. destruct add_ref; unfold track_refcount; cbn.
    - rewrite lookup_insert_eq. reflexivity.
    - lia. }
  split.
  { subst w1. destruct add_ref; cbn; [reflexivity|].
    rewrite app_nil_r. reflexivity. }
  intros ops w2 w3.
  destruct (run_world_step ops w1) as [evs [T [P K]]]. fold w2 in T, K.
  destruct (K (cell_of t)) as [Hlen E].
  { apply lookup_lt_Some in L1. exact L1. }
  rewrite A1 in E.
  assert (alive (cell_of t) w2 = true ->
          w_cells w2 !! cell_of t = Some (GcCell p release_track true))
    as Keep by (apply run_keeps_live_cell; exact L1).
  split; [|split].
  - exists evs. split; [exact T|]. split; [exact P|].
    destruct (alive (cell_of t) w2); lia.
  - intros A2. specialize (Keep A2).
    destruct (collect_alive _ _ _ _ Keep) as [C3 T3]. fold w3 in C3, T3.
    assert (alive (cell_of t) w3 = false) as A3.
    { unfold alive. rewrite C3, list_lookup_insert_eq by exact Hlen.
      reflexivity. }
    split; [exact T3|]. split; [|split; [exact A3|]].
    + subst w3. unfold ffi.collect. rewrite Keep.
      cbn [ffi.run_destructor]. rewrite refcount_after_release.
      reflexivity.
    + apply collect_not_alive. exact A3.
  - intros A2. apply collect_not_alive. exact A2.
Qed.

(** ** The theorems at concrete inputs *)

Lemma reference_lifecycle_witness :
  exists (t : Track) (w1 : world),
    Track.__init__ 7 true Double.no_session = (Ok t, w1)
    /\ track_refcount w1 7 = track_refcount Double.no_session 7 + 1
    /\ w_trace w1 = [Call (c_sp_track_add_ref 7)].
Proof.
  destruct (@reference_lifecycle Double.collaborators Double.no_session 7 true)
    as (t & w1 & E & _ & _ & _ & R & T & _).
  exists t, w1. repeat split; assumption.
Defined.

Lemma session_gated_without_session_witness :
  In a_availability session_gated
  /\ w_session_instance Double.no_session = None
  /\ @get Double.collaborators a_availability (Double.track 9) Double.no_session
     = (Raise (RuntimeError "Session must be initialized"), Double.no_session).
Proof.
  assert (In a_availability session_gated) as Ha by (simpl; tauto).
  assert (w_session_instance Double.no_session = None) as Hs by reflexivity.
  split; [exact Ha|]. split; [exact Hs|].
  exact (proj1 (@session_gated_without_session Double.collaborators
                  a_availability (Double.track 9) Double.no_session Ha Hs)).
Defined.

(** C3, as the claim states it, fails: with no session, track 7 (error
    code OK) answers offline_status with the native read, after two native
    calls, and raises nothing. *)
Lemma offline_status_counterexample :
  w_session_instance Double.no_session = None
  /\ @Track.offline_status Double.collaborators (Double.track 7) Double.no_session
     = (Ok (VEnum TrackOfflineStatus 0),
        World Double.native0 ∅ ∅ None []
          [Call (c_sp_track_error 7);
           Call (c_sp_track_offline_get_status 7)])
  /\ fst (@Track.offline_status Double.collaborators (Double.track 7) Double.no_session)
     <> Raise (RuntimeError "Session must be initialized").
Proof.
  split; [reflexivity|]. split; [reflexivity|discriminate].
Qed.

Lemma offline_status_without_session_witness :
  w_session_instance Double.no_session = None
  /\ fst (@Track.offline_status Double.collaborators (Double.track 9) Double.no_session)
     <> Raise (RuntimeError "Session must be initialized").
Proof.
  assert (w_session_instance Double.no_session = None) as Hs by reflexivity.
  split; [exact Hs|].
  exact (proj2 (@offline_status_without_session Double.collaborators
                  (Double.track 9) Double.no_session Hs)).
Defined.

Lemma error_gated_on_error_witness :
  In a_name error_gated
  /\ n_track_error (w_native Double.with_session) (Track.sp_track_of (Double.track 9)) = 3
  /\ 3 <> @SP_ERROR_OK Double.collaborators
  /\ @get Double.collaborators a_name (Double.track 9) Double.with_session
     = (Raise (Error (VEnum ErrorType 3)),
        record_event (Call (c_sp_track_error 9)) Double.with_session).
Proof.
  assert (In a_name error_gated) as Ha by (simpl; tauto).
  assert (n_track_error (w_native Double.with_session)
            (Track.sp_track_of (Double.track 9)) = 3) as Hc by reflexivity.
  assert (3 <> @SP_ERROR_OK Double.collaborators) as Hne by (cbn; lia).
  assert (needs_session a_name = true -> w_session_instance Double.with_session <> None)
    as Hs by discriminate.
  split; [exact Ha|]. split; [exact Hc|]. split; [exact Hne|].
  exact (proj1 (@error_gated_on_error Double.collaborators a_name (Double.track 9)
                  Double.with_session 3 Ha Hc Hne Hs)).
Defined.

Lemma unloaded_flags_are_None_witness :
  In a_is_starred [a_is_local; a_is_autolinked; a_is_starred]
  /\ w_session_instance Double.with_session = Some (mkSession 1)
  /\ n_track_is_loaded (w_native Double.with_session) (Track.sp_track_of (Double.track 8)) = 0
  /\ fst (@get Double.collaborators a_is_starred (Double.track 8) Double.with_session) <> Ok (VBool false).
Proof.
  assert (In a_is_starred [a_is_local; a_is_autolinked; a_is_starred])
    as Ha by (simpl; tauto).
  assert (w_session_instance Double.with_session = Some (mkSession 1))
    as Hs by reflexivity.
  assert (n_track_error (w_native Double.with_session) (Track.sp_track_of (Double.track 8))
          = @SP_ERROR_OK Double.collaborators) as He by reflexivity.
  assert (n_track_is_loaded (w_native Double.with_session)
            (Track.sp_track_of (Double.track 8)) = 0) as Hl by reflexivity.
  split; [exact Ha|]. split; [exact Hs|]. split; [exact Hl|].
  exact (proj2 (@unloaded_flags_are_None Double.collaborators a_is_starred (Double.track 8)
                  Double.with_session (mkSession 1) Ha Hs He Hl)).
Defined.

Lemma empty_native_reads_are_None_witness :
  n_track_error (w_native Double.with_session1) (Track.sp_track_of (Double.track 7))
  = @SP_ERROR_OK Double.collaborators
  /\ fst (@Track.duration Double.collaborators (Double.track 7) Double.with_session1)
     = Ok (VInt 210).
Proof.
  assert (n_track_error (w_native Double.with_session1) (Track.sp_track_of (Double.track 7))
          = @SP_ERROR_OK Double.collaborators) as He by reflexivity.
  split; [exact He|].
  rewrite (proj1 (@empty_native_reads_are_None Double.collaborators (Double.track 7)
                    Double.with_session1 He)).
  reflexivity.
Defined.

(** C7, as the claim states it, fails: track 7 is loaded, error code OK,
    and its native popularity reads 0; popularity returns 0, not None. *)
Lemma popularity_counterexample :
  n_track_error (w_native Double.with_session) (Track.sp_track_of (Double.track 7))
  = @SP_ERROR_OK Double.collaborators
  /\ n_track_is_loaded (w_native Double.with_session) (Track.sp_track_of (Double.track 7)) = 1
  /\ n_track_popularity (w_native Double.with_session) (Track.sp_track_of (Double.track 7)) = 0
  /\ fst (@Track.popularity Double.collaborators (Double.track 7) Double.with_session) = Ok (VInt 0)
  /\ fst (@Track.popularity Double.collaborators (Double.track 7) Double.with_session) <> Ok VNone.
Proof.
  repeat split; try reflexivity. discriminate.
Qed.

Lemma popularity_when_OK_witness :
  n_track_error (w_native Double.with_session) (Track.sp_track_of (Double.track 8))
  = @SP_ERROR_OK Double.collaborators
  /\ n_track_is_loaded (w_native Double.with_session) (Track.sp_track_of (Double.track 8)) = 0
  /\ fst (@Track.popularity Double.collaborators (Double.track 8) Double.with_session) = Ok VNone.
Proof.
  assert (n_track_error (w_native Double.with_session) (Track.sp_track_of (Double.track 8))
          = @SP_ERROR_OK Double.collaborators) as He by reflexivity.
  assert (n_track_is_loaded (w_native Double.with_session)
            (Track.sp_track_of (Double.track 8)) = 0) as Hl by reflexivity.
  split; [exact He|]. split; [exact Hl|].
  rewrite (proj1 (@popularity_when_OK Double.collaborators (Double.track 8)
                    Double.with_session He) Hl).
  reflexivity.
Defined.

Lemma playable_new_wrapper_witness :
  w_session_instance (snd (Track.__init__ 7 true Double.with_session))
  = Some (mkSession 1)
  /\ (cell_of (Double.track 7)
      < length (w_cells (snd (Track.__init__ 7 true Double.with_session))))%nat
  /\ exists t,
       fst (@Track.playable Double.collaborators (Double.track 7)
              (snd (Track.__init__ 7 true Double.with_session))) = Ok (VTrack t)
       /\ t <> Double.track 7.
Proof.
  set (w := snd (Track.__init__ 7 true Double.with_session)).
  assert (w_session_instance w = Some (mkSession 1)) as Hs by reflexivity.
  assert (n_track_error (w_native w) (Track.sp_track_of (Double.track 7))
          = @SP_ERROR_OK Double.collaborators) as He by reflexivity.
  assert (cell_of (Double.track 7) < length (w_cells w))%nat as Hc by (cbn; lia).
  split; [exact Hs|]. split; [exact Hc|].
  destruct (@playable_new_wrapper Double.collaborators (Double.track 7) w (mkSession 1)
              Hs He Hc) as (E & _ & _ & _ & Hne & _).
  eexists. split; [rewrite E; reflexivity|exact Hne].
Defined.


(** ** The scenarios of the specification, evaluated *)

(** An unloaded, healthy track: name, is_starred and duration are None. *)
Example unloaded_track_reads :
  fst (@Track.name Double.collaborators (Double.track 8) Double.with_session)
  = Ok VNone
  /\ fst (@Track.is_starred Double.collaborators (Double.track 8)
            Double.with_session) = Ok VNone
  /\ fst (@Track.duration Double.collaborators (Double.track 8)
            Double.with_session) = Ok VNone.
Proof. repeat split. Qed.

(** The loaded track, once its fields are set: the integers come back. *)
Example loaded_track_reads :
  fst (@Track.duration Double.collaborators (Double.track 7)
         Double.with_session1) = Ok (VInt 210)
  /\ fst (@Track.name Double.collaborators (Double.track 7)
            Double.with_session1) = Ok (VUnicode "T")
  /\ fst (@Track.is_starred Double.collaborators (Double.track 7)
            Double.with_session1) = Ok (VBool true).
Proof. repeat split. Qed.

(** A failed track: name raises the code, is_loaded and error answer. *)
Example failed_track_reads :
  fst (@Track.name Double.collaborators (Double.track 9) Double.with_session)
  = Raise (Error (VEnum ErrorType 3))
  /\ fst (Track.is_loaded (Double.track 9) Double.with_session)
     = Ok (VBool false)
  /\ fst (Track.error (Double.track 9) Double.with_session)
     = Ok (VEnum ErrorType 3).
Proof. repeat split. Qed.

(** LocalTrack("A", title=None, "Alb", length=None), then its collection:
    the creation call, and later the one release. *)
Example local_track_life :
  let r := @LocalTrack.__init__ Double.collaborators
             (Some "A") None (Some "Alb") None Double.no_session in
  fst r = Ok (mkTrack (CData 4096 0))
  /\ w_trace (ffi.collect 0 (ffi.collect 0 (snd r)))
     = [Call (c_sp_localtrack_create
                (Some (String.list_byte_of_string "A")) None
                (Some (String.list_byte_of_string "Alb")) (-1));
        Finalize 0;
        Call (c_sp_track_release 4096)]
  /\ track_refcount (snd r) 4096 = 1
  /\ track_refcount (ffi.collect 0 (snd r)) 4096 = 0.
Proof. repeat split. Qed.

(** * The accessors as compositions *)

(** Every property of [Track] is a sequence of reads of the view, native
    queries, and (for playable and album) one wrapper construction.  A
    relation on worlds that is a preorder and holds across each of these
    holds across the whole property. *)
Section composition.
Context `{Collaborators}.
Variable R : world -> world -> Prop.
Hypothesis R_refl : forall w, R w w.
Hypothesis R_trans : forall w1 w2 w3, R w1 w2 -> R w2 w3 -> R w1 w3.
Hypothesis R_query :
  forall c w, is_release c = false -> R w (record_event (Call c) w).

Lemma respects_ret {A} (a : A) : respects R (ret a).
Proof. intros w. apply R_refl. Qed.

Lemma respects_raise {A} (e : exn) : respects R (@raise A e).
Proof. intros w. apply R_refl. Qed.

Lemma respects_bind {A B} (m : M A) (k : A -> M B) :
  respects R m -> (forall a, respects R (k a)) -> respects R (bind m k).
Proof.
  intros Hm Hk w. unfold bind. specialize (Hm w).
  destruct (m w) as [[a|e] w']; cbn [snd] in *.
  - eapply R_trans; [exact Hm|apply Hk].
  - exact Hm.
Qed.

Lemma respects_query {A} (c : native_call) (read : native -> A) :
  is_release c = false -> respects R (lib.query c read).
Proof. intros Hc w. now apply R_query. Qed.

Lemma respects_session_instance : respects R spotify_session_instance.
Proof. intros w. apply R_refl. Qed.

Lemma respects_getattr_sp_session (s : option Session) :
  respects R (getattr_sp_session s).
Proof. destruct s; [apply respects_ret|apply respects_raise]. Qed.

Lemma respects_lift_result {A} (r : result A) : respects R (lift_result r).
Proof. destruct r; [apply respects_ret|apply respects_raise]. Qed.

Lemma respects_maybe_raise (v : value) : respects R (Error_maybe_raise v).
Proof.
  unfold Error_maybe_raise.
  destruct (decide _); [apply respects_ret|apply respects_raise].
Qed.

Ltac respects_walk_with unit_step :=
  repeat first
    [ unit_step
    | apply respects_bind; [|intros ?]
    | apply respects_query; reflexivity
    | apply respects_ret
    | apply respects_raise
    | apply respects_session_instance
    | apply respects_getattr_sp_session
    | apply respects_lift_result
    | apply respects_maybe_raise
    | assumption
    | match goal with
      | |- respects _ (match ?x with _ => _ end) => destruct x
      end ].
Ltac respects_walk := respects_walk_with fail.

Ltac open_all :=
  unfold Track.is_loaded, Track.error,
    Track.offline_status, Track.availability, Track.is_local,
    Track.is_autolinked, Track.playable, Track.is_placeholder,
    Track.is_starred, Track.album, Track.name, Track.duration,
    Track.popularity, Track.disc, Track.index,
    lib.sp_track_is_loaded, lib.sp_track_error,
    lib.sp_track_offline_get_status, lib.sp_track_get_availability,
    lib.sp_track_is_local, lib.sp_track_is_autolinked,
    lib.sp_track_get_playable, lib.sp_track_is_placeholder,
    lib.sp_track_is_starred, lib.sp_track_album, lib.sp_track_name,
    lib.sp_track_duration, lib.sp_track_popularity, lib.sp_track_disc,
    lib.sp_track_index.

(** The thirteen properties that build nothing. *)
Lemma respects_reader (a : accessor) (t : Track) :
  allocating a = false -> respects R (get a t).
Proof.
  destruct a; cbn [allocating get]; intros Ha; try discriminate;
    open_all; respects_walk.
Qed.

Hypothesis R_Track : forall q, respects R (Track.__init__ q true).
Hypothesis R_Album : forall a, respects R (Album.__init__ a).

Lemma respects_get (a : accessor) (t : Track) : respects R (get a t).
Proof.
  destruct (allocating a) eqn:Ha; [|now apply respects_reader].
  destruct a; try discriminate; cbn [get]; open_all;
    respects_walk_with ltac:(first [apply R_Track | apply R_Album]).
Qed.

End composition.

(** * Properties of the module as a whole *)

Lemma added_app (w w' : world) (evs : list event) :
  w_trace w' = w_trace w ++ evs -> added w w' = evs.
Proof. intros E. unfold added. rewrite E. apply drop_app_length. Qed.

(** ** What a read leaves alone *)

Lemma same_view_refl (w : world) : same_view w w.
Proof. split; reflexivity. Qed.

Lemma same_view_trans (w1 w2 w3 : world) :
  same_view w1 w2 -> same_view w2 w3 -> same_view w1 w3.
Proof. intros [N1 S1] [N2 S2]. split; congruence. Qed.

Lemma only_traced_refl (w : world) : only_traced w w.
Proof. repeat split. Qed.

Lemma only_traced_trans (w1 w2 w3 : world) :
  only_traced w1 w2 -> only_traced w2 w3 -> only_traced w1 w3.
Proof.
  intros (V1 & T1 & A1 & C1) (V2 & T2 & A2 & C2).
  split; [eapply same_view_trans; eassumption|].
  repeat split; congruence.
Qed.

Lemma only_acquires_refl (w : world) : only_acquires w w.
Proof.
  split; [apply same_view_refl|]. split; [exists []; now rewrite app_nil_r|].
  split; intros; lia.
Qed.

Lemma only_acquires_trans (w1 w2 w3 : world) :
  only_acquires w1 w2 -> only_acquires w2 w3 -> only_acquires w1 w3.
Proof.
  intros (V1 & [c1 C1] & T1 & A1) (V2 & [c2 C2] & T2 & A2).
  split; [eapply same_view_trans; eassumption|]. split.
  - exists (c1 ++ c2). rewrite C2, C1, app_assoc. reflexivity.
  - split; intros x; [specialize (T1 x); specialize (T2 x)
                     |specialize (A1 x); specialize (A2 x)]; lia.
Qed.

Lemma only_traced_acquires (w w' : world) :
  only_traced w w' -> only_acquires w w'.
Proof.
  intros (V & T & A & C). split; [exact V|]. split.
  - exists []. rewrite app_nil_r. exact C.
  - unfold track_refcount, album_refcount. rewrite T, A. split; intros; lia.
Qed.

Lemma only_acquires_Track (q : sp_track) :
  respects only_acquires (Track.__init__ q true).
Proof.
  intros w. split; [split; reflexivity|]. split; [eexists; reflexivity|].
  split; intros x.
  - unfold track_refcount. cbn. rewrite lookup_insert.
    destruct (decide _) as [->|_]; cbn; unfold track_refcount; lia.
  - unfold album_refcount. cbn. lia.
Qed.

Lemma only_acquires_Album (a : sp_album) :
  respects only_acquires (Album.__init__ a).
Proof.
  intros w. split; [split; reflexivity|]. split; [eexists; reflexivity|].
  split; intros x.
  - unfold track_refcount. cbn. lia.
  - unfold album_refcount. cbn. rewrite lookup_insert.
    destruct (decide _) as [->|_]; cbn; unfold album_refcount; lia.
Qed.

Lemma only_acquires_get `{Collaborators} (a : accessor) (t : Track) :
  respects only_acquires (get a t).
Proof.
  apply respects_get.
  - apply only_acquires_refl.
  - apply only_acquires_trans.
  - intros c w0 _. apply only_traced_acquires. repeat split.
  - apply only_acquires_Track.
  - apply only_acquires_Album.
Qed.

(** X1.  Reading any property of a track leaves libspotify's answers and
    spotify.session_instance as they were, keeps every existing cdata,
    lowers no reference count, and adds to the trace only calls that are
    neither a release nor a destructor run.  The thirteen properties other
    than playable and album change nothing but the trace. *)
Theorem reads_only_acquire `{Collaborators}
    (a : accessor) (t : Track) (w : world) :
  let w' := snd (get a t w) in
  only_acquires w w'
  /\ forallb quiet (added w w') = true
  /\ (allocating a = false -> only_traced w w').
Proof.
  cbn zeta. split; [|split].
  - apply only_acquires_get.
  - destruct (code_get a t w) as [_ [evs [T Q]]].
    rewrite (added_app _ _ _ T). exact Q.
  - intros Ha. apply respects_reader.
    + apply only_traced_refl.
    + apply only_traced_trans.
    + intros c w0 _. repeat split.
    + exact Ha.
Qed.

(** ** What a read depends on, and what it can raise *)

Section reads.
Context `{Collaborators}.

(** Unfolds a property down to the world. *)
Ltac compute_get :=
  cbn [get];
  unfold Track.is_loaded, Track.error,
    Track.offline_status, Track.availability, Track.is_local,
    Track.is_autolinked, Track.playable, Track.is_placeholder,
    Track.is_starred, Track.album, Track.name, Track.duration,
    Track.popularity, Track.disc, Track.index,
    lib.sp_track_is_loaded, lib.sp_track_error,
    lib.sp_track_offline_get_status, lib.sp_track_get_availability,
    lib.sp_track_is_local, lib.sp_track_is_autolinked,
    lib.sp_track_get_playable, lib.sp_track_is_placeholder,
    lib.sp_track_is_starred, lib.sp_track_album, lib.sp_track_name,
    lib.sp_track_duration, lib.sp_track_popularity, lib.sp_track_disc,
    lib.sp_track_index, bind, lib.query, spotify_session_instance,
    getattr_sp_session, Error_maybe_raise, lift_result, ret, raise;
  cbn.

(** One case per outcome of the gates. *)
Ltac split_gates tac :=
  repeat (first
    [ tac
    | match goal with
      | |- context [decide ?P] => destruct (decide P)
      | |- context [match ?x with Some _ => _ | None => _ end] =>
          destruct x eqn:?
      | |- context [match ?x with Ok _ => _ | Raise _ => _ end] =>
          destruct x eqn:?
      | |- context [if ?b then _ else _] => destruct b eqn:?
      end ]; cbn).

Lemma reader_result_view (b : accessor) (t u : Track) (w w' : world) :
  allocating b = false ->
  same_view w w' ->
  Track.sp_track_of u = Track.sp_track_of t ->
  fst (get b u w') = fst (get b t w).
Proof.
  intros Hb [Hn Hs] Hp. destruct w, w'. cbn in Hn, Hs. subst.
  destruct b; try discriminate; compute_get; rewrite Hp;
    split_gates ltac:(reflexivity).
Qed.

(** X2.  A read does not disturb a later read: whatever property [a] was
    read of whatever track, a property [b] other than playable and album
    then returns (or raises) what it would have without that read.  In
    particular reading [b] twice gives the same answer twice. *)
Theorem reads_do_not_interfere
    (a b : accessor) (t u : Track) (w : world) :
  allocating b = false ->
  fst (get b u (snd (get a t w))) = fst (get b u w).
Proof.
  intros Hb.
  apply (reader_result_view b u u w (snd (get a t w)) Hb); [|reflexivity].
  destruct (only_acquires_get a t w) as [V _]. exact V.
Qed.

(** X3.  Two wrappers over the same native track are interchangeable for
    reading: a property other than playable and album answers the same on
    both. *)
Theorem wrappers_of_one_track_agree
    (b : accessor) (t u : Track) (w : world) :
  allocating b = false ->
  Track.sp_track_of u = Track.sp_track_of t ->
  fst (get b u w) = fst (get b t w).
Proof.
  intros Hb Hp.
  apply (reader_result_view b t u w w Hb); [|exact Hp].
  apply same_view_refl.
Qed.

(** X4.  Only the five session-gated properties depend on
    spotify.session_instance: every other property returns (or raises) the
    same whatever the global is set to. *)
Theorem session_free_accessors
    (a : accessor) (t : Track) (w : world) (s : option Session) :
  needs_session a = false ->
  fst (get a t (set_session_instance s w)) = fst (get a t w).
Proof.
  intros Ha. destruct w.
  destruct a; try discriminate; compute_get; split_gates ltac:(reflexivity).
Qed.

(** X5.  The exceptions a property read can raise, exhaustively: the
    liveness fault, only from a session-gated property and only when there
    is no session; the error carrying the track's non-OK code, only from a
    property behind the error check; and, for name alone, whatever
    to_unicode raises on the native string.  In particular reading
    [spotify.session_instance.sp_session] after the session test never
    fails. *)
Theorem accessor_exceptions
    (a : accessor) (self : Track) (w : world) (e : exn) :
  fst (get a self w) = Raise e ->
  let p := Track.sp_track_of self in
  let code := n_track_error (w_native w) p in
  (e = RuntimeError "Session must be initialized"
   /\ needs_session a = true /\ w_session_instance w = None)
  \/ (e = Error (VEnum ErrorType code)
      /\ code <> SP_ERROR_OK /\ In a error_gated)
  \/ (a = a_name /\ code = SP_ERROR_OK
      /\ to_unicode (n_track_name (w_native w) p) = Raise e).
Proof.
  destruct w. cbn zeta. cbn [w_native w_session_instance].
  destruct a; compute_get;
    split_gates ltac:(idtac; match goal with
                      | |- Ok _ = Raise _ -> _ => discriminate
                      | |- Raise _ = Raise _ -> _ => intros [=]; subst
                      end).
  all: unfold ErrorType_OK, enum_new in *.
  all: first
    [ left; repeat split; reflexivity
    | right; left; split; [reflexivity|];
      split; [congruence|simpl; tauto]
    | right; right; repeat split; congruence ].
Qed.

(** X6.  What a property read asks of libspotify: at most three calls,
    for every property; none at all exactly when a session-gated property
    finds no session; and otherwise, for every property but is_loaded, the
    first call is the error query on the track: no field is read before the
    error code. *)
Theorem error_query_comes_first
    (a : accessor) (self : Track) (w : world) :
  let evs := added w (snd (get a self w)) in
  (length evs <= 3)%nat
  /\ (evs = [] <-> needs_session a = true /\ w_session_instance w = None)
  /\ (a <> a_is_loaded -> evs <> [] ->
      exists rest,
        evs = Call (c_sp_track_error (Track.sp_track_of self)) :: rest).
Proof.
  destruct w. unfold added. cbn [w_session_instance w_trace].
  destruct a; compute_get;
    split_gates ltac:(fail);
    rewrite <- ?app_assoc, ?drop_app_length, ?drop_all; cbn;
    (split; [lia|]); split.
  all: first
    [ (* the two directions of "none exactly when" *)
      split;
      [ intros E; first [discriminate E | split; reflexivity]
      | intros [Hn Hs]; first [reflexivity | discriminate Hn | discriminate Hs] ]
    | (* the first call *)
      intros Ha Hne;
      first [ now contradiction Ha
            | now contradiction Hne
            | eexists; reflexivity ] ].
Qed.

(** X7.  For a loaded track, with an active session and error() == OK,
    is_local, is_autolinked and is_starred return a bool, never None: the
    native flag read for the current session's sp_session, false exactly
    when the flag is zero. *)
Theorem loaded_flags_are_bools
    (self : Track) (w : world) (sess : Session) :
  w_session_instance w = Some sess ->
  n_track_error (w_native w) (Track.sp_track_of self) = SP_ERROR_OK ->
  n_track_is_loaded (w_native w) (Track.sp_track_of self) <> 0 ->
  let p := Track.sp_track_of self in
  let s := session_sp_session sess in
  let n := w_native w in
  let w2 := record_event (Call (c_sp_track_is_loaded p)) (checked self w) in
  Track.is_local self w
  = (Ok (VBool (negb (n_track_is_local n s p =? 0))),
     record_event (Call (c_sp_track_is_local s p)) w2)
  /\ Track.is_autolinked self w
     = (Ok (VBool (negb (n_track_is_autolinked n s p =? 0))),
        record_event (Call (c_sp_track_is_autolinked s p)) w2)
  /\ Track.is_starred self w
     = (Ok (VBool (negb (n_track_is_starred n s p =? 0))),
        record_event (Call (c_sp_track_is_starred s p)) w2).
Proof.
  intros Hs Herr Hl. destruct w. cbn in Hs, Herr, Hl. subst.
  apply Z.eqb_neq in Hl. cbn zeta. unfold checked.
  repeat split; compute_get; rewrite Herr;
    (destruct (decide _) as [_|ne]; [|now contradiction ne]);
    cbn; rewrite Hl; reflexivity.
Qed.

(** X8.  availability has no load test: with an active session and
    error() == OK it returns the TrackAvailability of the native value for
    the current session, after exactly the error query and the availability
    call, whether or not the track is loaded. *)
Theorem availability_when_OK
    (self : Track) (w : world) (sess : Session) :
  w_session_instance w = Some sess ->
  n_track_error (w_native w) (Track.sp_track_of self) = SP_ERROR_OK ->
  let p := Track.sp_track_of self in
  let s := session_sp_session sess in
  Track.availability self w
  = (Ok (VEnum TrackAvailability (n_track_get_availability (w_native w) s p)),
     record_event (Call (c_sp_track_get_availability s p)) (checked self w))
  /\ added w (snd (Track.availability self w))
     = [Call (c_sp_track_error p); Call (c_sp_track_get_availability s p)].
Proof.
  intros Hs Herr. destruct w. cbn in Hs, Herr. subst. cbn zeta.
  unfold checked, added.
  assert (forall A (x y : A), (if decide
            (enum_new ErrorType SP_ERROR_OK = ErrorType_OK) then x else y) = x)
    as Hd by (intros; destruct (decide _) as [_|ne];
              [reflexivity|now contradiction ne]).
  split; compute_get; rewrite Herr; fold (enum_new ErrorType SP_ERROR_OK);
    rewrite Hd; cbn; [reflexivity|].
  rewrite <- app_assoc, drop_app_length. reflexivity.
Qed.

End reads.

(** ** The reference balance *)

Lemma owned_track_new_cell (p : sp_track) (w w' : world) (c : gc_cell) :
  w_cells w' = w_cells w ++ [c] ->
  owned_track p w' = owned_track p w + (if holds_track p c then 1 else 0).
Proof.
  intros E. unfold owned_track. rewrite E, List.filter_app, length_app. cbn.
  destruct (holds_track p c); cbn; lia.
Qed.

Lemma filter_length_insert {A} (f : A -> bool) (l : list A) (i : nat)
    (c c' : A) :
  l !! i = Some c ->
  Z.of_nat (length (List.filter f (<[i := c']> l)))
  = Z.of_nat (length (List.filter f l))
    - (if f c then 1 else 0) + (if f c' then 1 else 0).
Proof.
  revert i. induction l as [|x l IH]; intros i Hi; [discriminate|].
  destruct i as [|i]; cbn [lookup list_lookup] in Hi.
  - injection Hi as ->. change (<[0%nat:=c']> (c :: l)) with (c' :: l).
    cbn [List.filter]. destruct (f c), (f c'); cbn [length]; lia.
  - specialize (IH i Hi).
    change (<[S i:=c']> (x :: l)) with (x :: <[i:=c']> l).
    cbn [List.filter]. destruct (f x); cbn [length];
      rewrite ?Nat2Z.inj_succ, IH; lia.
Qed.

Lemma balanced_refl (w : world) : balanced w w.
Proof. intros p. reflexivity. Qed.

Lemma balanced_trans (w1 w2 w3 : world) :
  balanced w1 w2 -> balanced w2 w3 -> balanced w1 w3.
Proof. intros B1 B2 p. rewrite B2. apply B1. Qed.

Lemma balanced_only_traced (w w' : world) : only_traced w w' -> balanced w w'.
Proof.
  intros (_ & T & _ & C) p.
  unfold unowned_track, track_refcount, owned_track. rewrite T, C.
  reflexivity.
Qed.

(** [Track(q)]: one more reference on [q], one more wrapper holding it. *)
Lemma balanced_Track (q : sp_track) :
  respects balanced (Track.__init__ q true).
Proof.
  intros w p. unfold unowned_track.
  rewrite (owned_track_new_cell p w _ (GcCell q release_track true))
    by reflexivity.
  unfold track_refcount, holds_track. cbn. rewrite lookup_insert.
  destruct (decide (q = p)) as [->|ne].
  - rewrite Z.eqb_refl. cbn. unfold track_refcount. lia.
  - apply Z.eqb_neq in ne. rewrite ne. lia.
Qed.

Lemma balanced_Album (a : sp_album) :
  respects balanced (Album.__init__ a).
Proof.
  intros w p. unfold unowned_track.
  rewrite (owned_track_new_cell p w _ (GcCell a release_album true))
    by reflexivity.
  unfold track_refcount, holds_track. cbn. lia.
Qed.

Lemma balanced_get `{Collaborators} (a : accessor) (t : Track) :
  respects balanced (get a t).
Proof.
  apply respects_get.
  - apply balanced_refl.
  - apply balanced_trans.
  - intros c w _. apply balanced_only_traced. repeat split.
  - apply balanced_Track.
  - apply balanced_Album.
Qed.

(** [LocalTrack.__init__], by cases on the C int conversion. *)
Lemma LocalTrack_init_eq `{Collaborators}
    (artist title album : option string) (len : option Z) (w : world) :
  let c_len := default (-1) len in
  let q := n_localtrack_create (w_native w) (LocalTrack.convert artist)
             (LocalTrack.convert title) (LocalTrack.convert album) c_len in
  LocalTrack.__init__ artist title album len w
  = if fits_c_int c_len then
      (Ok (mkTrack (CData q (length (w_cells w)))),
       set_cells (fun cs => cs ++ [GcCell q release_track true])
         (set_track_refs (fun r => <[q := track_refcount w q + 1]> r)
            (record_event
               (Call (c_sp_localtrack_create (LocalTrack.convert artist)
                        (LocalTrack.convert title) (LocalTrack.convert album)
                        c_len)) w)))
    else (Raise (OverflowError c_len), w).
Proof.
  cbn zeta. unfold LocalTrack.__init__, bind, lib.sp_localtrack_create.
  assert (match len with Some n => n | None => -1 end = default (-1) len)
    as -> by (destruct len; reflexivity).
  destruct (fits_c_int _); reflexivity.
Qed.

(** The creation call vends the reference that the new wrapper holds; a
    construction that raises changes nothing. *)
Lemma balanced_LocalTrack `{Collaborators}
    (artist title album : option string) (len : option Z) :
  respects balanced (LocalTrack.__init__ artist title album len).
Proof.
  intros w p. rewrite LocalTrack_init_eq. cbn zeta.
  destruct (fits_c_int _); [|reflexivity].
  set (q := n_localtrack_create _ _ _ _ _).
  unfold unowned_track.
  rewrite (owned_track_new_cell p w _ (GcCell q release_track true))
    by reflexivity.
  unfold track_refcount, holds_track. cbn. rewrite lookup_insert.
  destruct (decide (q = p)) as [->|ne].
  - rewrite Z.eqb_refl. cbn. unfold track_refcount. lia.
  - apply Z.eqb_neq in ne. rewrite ne. lia.
Qed.

Lemma track_refcount_collect (i : nat) (w : world) (q : Z) (d : destructor)
    (p : sp_track) :
  w_cells w !! i = Some (GcCell q d true) ->
  track_refcount (ffi.collect i w) p
  = track_refcount w p - (if holds_track p (GcCell q d true) then 1 else 0).
Proof.
  intros Hc. unfold ffi.collect. rewrite Hc.
  destruct d; unfold holds_track, track_refcount; cbn.
  - rewrite lookup_insert. destruct (decide _) as [e|ne]; [subst|].
    + rewrite Z.eqb_refl. reflexivity.
    + apply Z.eqb_neq in ne. rewrite ne. lia.
  - lia.
Qed.

(** A destructor gives back exactly the reference its wrapper held. *)
Lemma balanced_collect (i : nat) (w : world) : balanced w (ffi.collect i w).
Proof.
  destruct (alive i w) eqn:Ha.
  2: { rewrite collect_not_alive by exact Ha. apply balanced_refl. }
  unfold alive in Ha.
  destruct (w_cells w !! i) as [[q d b]|] eqn:Hc; [|discriminate].
  cbn in Ha. subst b. destruct (collect_alive i w q d Hc) as [C _].
  intros p. unfold unowned_track.
  rewrite (track_refcount_collect i w q d p Hc).
  unfold owned_track. rewrite C, (filter_length_insert _ _ _ _ _ Hc).
  change (holds_track p (GcCell q d false)) with false.
  destruct (holds_track p (GcCell q d true)); lia.
Qed.

Lemma unowned_step `{Collaborators} (o : op) (w : world) (p : sp_track) :
  unowned_track p (step o w)
  = unowned_track p w - (if adopts p o then 1 else 0).
Proof.
  destruct o as [q [|]|ar ti al ln|a t|i|n|s]; cbn [step adopts].
  - rewrite (balanced_Track q w p). lia.
  - unfold unowned_track.
    rewrite (owned_track_new_cell p w _ (GcCell q release_track true))
      by reflexivity.
    unfold track_refcount, holds_track. cbn.
    destruct (q =? p); lia.
  - rewrite (balanced_LocalTrack ar ti al ln w p). lia.
  - rewrite (balanced_get a t w p). lia.
  - rewrite (balanced_collect i w p). lia.
  - unfold unowned_track, track_refcount, owned_track. cbn. lia.
  - unfold unowned_track, track_refcount, owned_track. cbn. lia.
Qed.

(** X9.  The reference balance.  Over any sequence of constructions,
    property reads, collections, native updates and session changes, the
    reference count of a track minus the number of live wrappers holding it
    changes only by adoption: it drops by one for each Track(p,
    add_ref=False) and is otherwise constant.  A program that wraps with
    add_ref=True (or through LocalTrack, playable) neither leaks nor
    over-releases: once its wrappers are collected the count is back where
    it started. *)
Theorem reference_balance `{Collaborators}
    (ops : list op) (w : world) (p : sp_track) :
  track_refcount (run ops w) p - owned_track p (run ops w)
  = track_refcount w p - owned_track p w - adopted p ops.
Proof.
  fold (unowned_track p (run ops w)) (unowned_track p w).
  revert w. induction ops as [|o ops IH]; intros w.
  - unfold adopted. cbn. lia.
  - cbn [run foldl]. fold (run ops (step o w)).
    rewrite IH, unowned_step. unfold adopted. cbn [List.filter].
    destruct (adopts p o); cbn [length]; lia.
Qed.

(** ** Wrappers built by playable, by LocalTrack, and side by side *)

(** The life of any cdata whose destructor is [sp_track_release] on [p],
    from a world where it is alive. *)
Lemma track_cell_lifecycle `{Collaborators}
    (i : nat) (p : sp_track) (w1 : world) (ops : list op) :
  w_cells w1 !! i = Some (GcCell p release_track true) ->
  let w2 := run ops w1 in
  let w3 := ffi.collect i w2 in
  finalizations i (added w1 w2) = (if alive i w2 then 0%nat else 1%nat)
  /\ (alive i w2 = true ->
      added w2 w3 = [Finalize i; Call (c_sp_track_release p)]
      /\ track_refcount w3 p = track_refcount w2 p - 1
      /\ alive i w3 = false)
  /\ (alive i w2 = false -> w3 = w2).
Proof.
  intros L1 w2 w3.
  assert (alive i w1 = true) as A1 by (unfold alive; rewrite L1; reflexivity).
  destruct (run_world_step ops w1) as [evs [T [_ K]]]. fold w2 in T, K.
  destruct (K i) as [Hlen E]; [apply lookup_lt_Some in L1; exact L1|].
  rewrite A1 in E. split; [|split].
  - rewrite (added_app _ _ _ T). destruct (alive i w2); lia.
  - intros A2.
    pose proof (run_keeps_live_cell ops w1 i _ L1 A2) as Keep. fold w2 in Keep.
    destruct (collect_alive _ _ _ _ Keep) as [C3 T3]. fold w3 in C3, T3.
    split; [apply added_app; exact T3|]. split.
    + subst w3. rewrite (track_refcount_collect _ _ _ _ p Keep).
      unfold holds_track. cbn. rewrite Z.eqb_refl. reflexivity.
    + unfold alive. rewrite C3, list_lookup_insert_eq by exact Hlen.
      reflexivity.
  - intros A2. apply collect_not_alive. exact A2.
Qed.

(** X10.  A LocalTrack built with a length that fits the C int parameter
    of the creation call (None, sent as -1, does) owns the reference that
    sp_localtrack_create handed back and gives it up exactly once: whatever
    happens after the construction, its destructor has run zero times while
    it is alive and once afterwards, and collecting the live wrapper makes
    exactly one sp_track_release call, on the created handle, lowering its
    count by one. *)
Theorem LocalTrack_released_once `{Collaborators}
    (artist title album : option string) (len : option Z) (w : world) :
  fits_c_int (default (-1) len) = true ->
  let r := LocalTrack.__init__ artist title album len w in
  exists t : Track,
    fst r = Ok t
    /\ alive (cell_of t) (snd r) = true
    /\ forall ops : list op,
         let w2 := run ops (snd r) in
         let w3 := ffi.collect (cell_of t) w2 in
         finalizations (cell_of t) (added (snd r) w2)
         = (if alive (cell_of t) w2 then 0%nat else 1%nat)
         /\ (alive (cell_of t) w2 = true ->
             added w2 w3 = [Finalize (cell_of t);
                            Call (c_sp_track_release (Track.sp_track_of t))]
             /\ track_refcount w3 (Track.sp_track_of t)
                = track_refcount w2 (Track.sp_track_of t) - 1
             /\ alive (cell_of t) w3 = false)
         /\ (alive (cell_of t) w2 = false -> w3 = w2).
Proof.
  intros Hfit. cbn zeta. rewrite LocalTrack_init_eq. cbn zeta. rewrite Hfit.
  set (q := n_localtrack_create _ _ _ _ _).
  set (w1 := set_cells _ _).
  exists (mkTrack (CData q (length (w_cells w)))).
  assert (w_cells w1 !! length (w_cells w)
          = Some (GcCell q release_track true)) as L.
  { subst w1. cbn. rewrite lookup_app_r by lia.
    rewrite Nat.sub_diag. reflexivity. }
  split; [reflexivity|]. split.
  - unfold alive, cell_of. cbn [track_sp_track cd_cell snd]. rewrite L.
    reflexivity.
  - intros ops. apply (track_cell_lifecycle _ q _ ops L).
Qed.

Lemma playable_eq `{Collaborators} (self : Track) (w : world) (sess : Session) :
  w_session_instance w = Some sess ->
  n_track_error (w_native w) (Track.sp_track_of self) = SP_ERROR_OK ->
  let p := Track.sp_track_of self in
  let s := session_sp_session sess in
  let q := n_track_get_playable (w_native w) s p in
  Track.playable self w
  = (Ok (VTrack (mkTrack (CData q (length (w_cells w))))),
     snd (Track.__init__ q true
            (record_event (Call (c_sp_track_get_playable s p))
               (checked self w)))).
Proof.
  intros Hs Herr. cbn zeta. unfold Track.playable.
  rewrite session_check, Hs, error_check. cbn zeta.
  destruct (decide _) as [_|ne]; [|contradiction].
  unfold bind at 1.
  cbn [spotify_session_instance w_session_instance record_event].
  rewrite Hs. reflexivity.
Qed.

(** X11.  Every read of playable builds another wrapper: with an active
    session and error() == OK, two reads in a row return two different
    objects over the same native track, each with its own add_ref, so the
    count of that track is two higher; the references come back only as the
    two wrappers are collected, in either order. *)
Theorem playable_reads_accumulate `{Collaborators}
    (self : Track) (w : world) (sess : Session) :
  w_session_instance w = Some sess ->
  n_track_error (w_native w) (Track.sp_track_of self) = SP_ERROR_OK ->
  let q := n_track_get_playable (w_native w) (session_sp_session sess)
             (Track.sp_track_of self) in
  let r1 := Track.playable self w in
  let r2 := Track.playable self (snd r1) in
  exists t1 t2 : Track,
    fst r1 = Ok (VTrack t1) /\ fst r2 = Ok (VTrack t2)
    /\ Track.sp_track_of t1 = q /\ Track.sp_track_of t2 = q
    /\ t1 <> t2
    /\ track_refcount (snd r2) q = track_refcount w q + 2
    /\ track_refcount (ffi.collect (cell_of t1) (snd r2)) q
       = track_refcount w q + 1
    /\ track_refcount
         (ffi.collect (cell_of t2) (ffi.collect (cell_of t1) (snd r2))) q
       = track_refcount w q
    /\ track_refcount
         (ffi.collect (cell_of t1) (ffi.collect (cell_of t2) (snd r2))) q
       = track_refcount w q.
Proof.
  intros Hs Herr q r1 r2.
  pose proof (playable_eq self w sess Hs Herr) as E1. cbn zeta in E1.
  fold q in E1. fold r1 in E1. clearbody r1.
  assert (w_native (snd r1) = w_native w
          /\ w_session_instance (snd r1) = w_session_instance w) as [Hn1 Hs1].
  { rewrite E1. split; reflexivity. }
  assert (w_session_instance (snd r1) = Some sess) as Hs' by congruence.
  assert (n_track_error (w_native (snd r1)) (Track.sp_track_of self)
          = SP_ERROR_OK) as Herr' by (rewrite Hn1; exact Herr).
  pose proof (playable_eq self (snd r1) sess Hs' Herr') as E2.
  cbn zeta in E2. rewrite Hn1 in E2. fold q in E2. fold r2 in E2.
  clearbody r2.
  set (n := length (w_cells w)) in *.
  assert (w_cells (snd r1) = w_cells w ++ [GcCell q release_track true])
    as C1 by (rewrite E1; reflexivity).
  assert (length (w_cells (snd r1)) = S n) as Len1.
  { rewrite C1, length_app. cbn. subst n. lia. }
  rewrite Len1 in E2.
  assert (w_cells (snd r2)
          = (w_cells w ++ [GcCell q release_track true])
              ++ [GcCell q release_track true]) as C2.
  { rewrite E2. cbn [snd]. cbn. rewrite C1. reflexivity. }
  assert (w_cells (snd r2) !! n = Some (GcCell q release_track true)) as L1.
  { rewrite C2, lookup_app_l by (rewrite length_app; cbn; subst n; lia).
    rewrite lookup_app_r by (subst n; lia).
    subst n. rewrite Nat.sub_diag. reflexivity. }
  assert (w_cells (snd r2) !! S n = Some (GcCell q release_track true)) as L2.
  { rewrite C2, lookup_app_r by (rewrite length_app; cbn; subst n; lia).
    rewrite length_app. cbn. subst n.
    replace (S (length (w_cells w)) - (length (w_cells w) + 1))%nat
      with 0%nat by lia. reflexivity. }
  assert (track_refcount (snd r1) q = track_refcount w q + 1) as R1.
  { rewrite E1. unfold track_refcount. cbn. rewrite lookup_insert_eq.
    reflexivity. }
  assert (track_refcount (snd r2) q = track_refcount w q + 2) as R2.
  { unfold track_refcount in R1 |- *. rewrite E2. cbn.
    rewrite lookup_insert_eq. cbn. unfold track_refcount. cbn. lia. }
  assert (forall c, holds_track q (GcCell q release_track c) = c) as Hh.
  { intros c. unfold holds_track. cbn. rewrite Z.eqb_refl.
    destruct c; reflexivity. }
  exists (mkTrack (CData q n)), (mkTrack (CData q (S n))).
  unfold cell_of. cbn [track_sp_track cd_cell].
  split; [rewrite E1; reflexivity|]. split; [rewrite E2; reflexivity|].
  split; [reflexivity|]. split; [reflexivity|].
  split; [intros [=]; lia|]. split; [exact R2|].
  pose proof (collect_alive _ _ _ _ L1) as [Ca _].
  pose proof (collect_alive _ _ _ _ L2) as [Cb _].
  assert (w_cells (ffi.collect n (snd r2)) !! S n
          = Some (GcCell q release_track true)) as L2'.
  { rewrite Ca, list_lookup_insert_ne by lia. exact L2. }
  assert (w_cells (ffi.collect (S n) (snd r2)) !! n
          = Some (GcCell q release_track true)) as L1'.
  { rewrite Cb, list_lookup_insert_ne by lia. exact L1. }
  repeat split.
  - rewrite (track_refcount_collect _ _ _ _ q L1), Hh, R2. lia.
  - rewrite (track_refcount_collect _ _ _ _ q L2'), Hh.
    rewrite (track_refcount_collect _ _ _ _ q L1), Hh, R2. lia.
  - rewrite (track_refcount_collect _ _ _ _ q L1'), Hh.
    rewrite (track_refcount_collect _ _ _ _ q L2), Hh, R2. lia.
Qed.

(** X12.  For is_local, is_autolinked, is_starred and popularity, None means
    exactly "not loaded": with error() == OK (and a session, for the three
    flags) the property returns None if and only if is_loaded returns
    False. *)
Theorem None_means_unloaded `{Collaborators}
    (a : accessor) (self : Track) (w : world) :
  In a [a_is_local; a_is_autolinked; a_is_starred; a_popularity] ->
  (needs_session a = true -> w_session_instance w <> None) ->
  n_track_error (w_native w) (Track.sp_track_of self) = SP_ERROR_OK ->
  fst (get a self w) = Ok VNone
  <-> fst (get a_is_loaded self w) = Ok (VBool false).
Proof.
  intros Ha Hs Herr. destruct w as [n tr ar s cs evs].
  cbn [w_native w_session_instance] in *.
  assert (forall A (x y : A),
            (if decide (enum_new ErrorType (n_track_error n
                          (Track.sp_track_of self)) = ErrorType_OK)
             then x else y) = x) as Hd.
  { intros. rewrite Herr. destruct (decide _) as [_|ne];
      [reflexivity|now contradiction ne]. }
  cbn [In] in Ha.
  destruct Ha as [<-|[<-|[<-|[<-|[]]]]];
    try (destruct s as [sess|]; [|exfalso; now apply Hs]);
    cbn [get];
    unfold Track.is_local, Track.is_autolinked, Track.is_starred,
      Track.popularity, Track.is_loaded, Track.error,
      lib.sp_track_is_loaded, lib.sp_track_error, lib.sp_track_is_local,
      lib.sp_track_is_autolinked, lib.sp_track_is_starred,
      lib.sp_track_popularity, bind, lib.query, spotify_session_instance,
      getattr_sp_session, Error_maybe_raise, ret, raise;
    cbn; rewrite Hd; cbn;
    destruct (n_track_is_loaded n (Track.sp_track_of self) =? 0);
    cbn; split; intros E; first [reflexivity | discriminate E].
Qed.

(** ** These properties at concrete inputs *)

Lemma reads_do_not_interfere_witness :
  allocating a_duration = false
  /\ fst (@get Double.collaborators a_duration (Double.track 7)
            (snd (@get Double.collaborators a_playable (Double.track 8)
                    Double.with_session1)))
     = Ok (VInt 210).
Proof.
  assert (allocating a_duration = false) as Hb by reflexivity.
  split; [exact Hb|].
  rewrite (@reads_do_not_interfere Double.collaborators a_playable a_duration
             (Double.track 8) (Double.track 7) Double.with_session1 Hb).
  reflexivity.
Defined.

Lemma wrappers_of_one_track_agree_witness :
  allocating a_name = false
  /\ Track.sp_track_of (mkTrack (CData 7 5)) = Track.sp_track_of (Double.track 7)
  /\ fst (@get Double.collaborators a_name (mkTrack (CData 7 5))
            Double.with_session1)
     = Ok (VUnicode "T").
Proof.
  assert (allocating a_name = false) as Hb by reflexivity.
  assert (Track.sp_track_of (mkTrack (CData 7 5))
          = Track.sp_track_of (Double.track 7)) as Hp by reflexivity.
  split; [exact Hb|]. split; [exact Hp|].
  rewrite (@wrappers_of_one_track_agree Double.collaborators a_name
             (Double.track 7) (mkTrack (CData 7 5)) Double.with_session1
             Hb Hp).
  reflexivity.
Defined.

Lemma session_free_accessors_witness :
  needs_session a_offline_status = false
  /\ fst (@get Double.collaborators a_offline_status (Double.track 7)
            (set_session_instance None Double.with_session1))
     = Ok (VEnum TrackOfflineStatus 210).
Proof.
  assert (needs_session a_offline_status = false) as Ha by reflexivity.
  split; [exact Ha|].
  rewrite (@session_free_accessors Double.collaborators a_offline_status
             (Double.track 7) Double.with_session1 None Ha).
  reflexivity.
Defined.

Lemma accessor_exceptions_witness :
  fst (@get Double.collaborators a_disc (Double.track 9) Double.no_session)
  = Raise (Error (VEnum ErrorType 3))
  /\ In a_disc error_gated.
Proof.
  assert (fst (@get Double.collaborators a_disc (Double.track 9)
                 Double.no_session)
          = Raise (Error (VEnum ErrorType 3))) as E by reflexivity.
  split; [exact E|].
  destruct (@accessor_exceptions Double.collaborators a_disc (Double.track 9)
              Double.no_session _ E) as [(He & _)|[(_ & _ & Hin)|(Hn & _)]].
  - discriminate He.
  - exact Hin.
  - discriminate Hn.
Defined.

Lemma error_query_comes_first_witness :
  a_is_starred <> a_is_loaded
  /\ added Double.with_session
       (snd (@get Double.collaborators a_is_starred (Double.track 7)
               Double.with_session)) <> []
  /\ exists rest,
       added Double.with_session
         (snd (@get Double.collaborators a_is_starred (Double.track 7)
                 Double.with_session))
       = Call (c_sp_track_error 7) :: rest.
Proof.
  assert (a_is_starred <> a_is_loaded) as Ha by discriminate.
  assert (added Double.with_session
            (snd (@get Double.collaborators a_is_starred (Double.track 7)
                    Double.with_session)) <> []) as Hne by discriminate.
  split; [exact Ha|]. split; [exact Hne|].
  exact (proj2 (proj2 (@error_query_comes_first Double.collaborators
                         a_is_starred (Double.track 7) Double.with_session))
               Ha Hne).
Defined.

Lemma loaded_flags_are_bools_witness :
  w_session_instance Double.with_session1 = Some (mkSession 1)
  /\ n_track_is_loaded (w_native Double.with_session1)
       (Track.sp_track_of (Double.track 7)) <> 0
  /\ fst (@Track.is_local Double.collaborators (Double.track 7)
            Double.with_session1) = Ok (VBool true).
Proof.
  assert (w_session_instance Double.with_session1 = Some (mkSession 1))
    as Hs by reflexivity.
  assert (n_track_error (w_native Double.with_session1)
            (Track.sp_track_of (Double.track 7))
          = @SP_ERROR_OK Double.collaborators) as He by reflexivity.
  assert (n_track_is_loaded (w_native Double.with_session1)
            (Track.sp_track_of (Double.track 7)) <> 0) as Hl by discriminate.
  split; [exact Hs|]. split; [exact Hl|].
  rewrite (proj1 (@loaded_flags_are_bools Double.collaborators
                    (Double.track 7) Double.with_session1 (mkSession 1)
                    Hs He Hl)).
  reflexivity.
Defined.

Lemma availability_when_OK_witness :
  w_session_instance Double.with_session = Some (mkSession 1)
  /\ n_track_is_loaded (w_native Double.with_session)
       (Track.sp_track_of (Double.track 8)) = 0
  /\ fst (@Track.availability Double.collaborators (Double.track 8)
            Double.with_session) = Ok (VEnum TrackAvailability 0).
Proof.
  assert (w_session_instance Double.with_session = Some (mkSession 1))
    as Hs by reflexivity.
  assert (n_track_error (w_native Double.with_session)
            (Track.sp_track_of (Double.track 8))
          = @SP_ERROR_OK Double.collaborators) as He by reflexivity.
  split; [exact Hs|]. split; [reflexivity|].
  rewrite (proj1 (@availability_when_OK Double.collaborators
                    (Double.track 8) Double.with_session (mkSession 1)
                    Hs He)).
  reflexivity.
Defined.

Lemma playable_reads_accumulate_witness :
  w_session_instance Double.with_session = Some (mkSession 1)
  /\ exists t1 t2 : Track,
       fst (@Track.playable Double.collaborators (Double.track 7)
              Double.with_session) = Ok (VTrack t1)
       /\ t1 <> t2
       /\ Track.sp_track_of t2 = 8.
Proof.
  assert (w_session_instance Double.with_session = Some (mkSession 1))
    as Hs by reflexivity.
  assert (n_track_error (w_native Double.with_session)
            (Track.sp_track_of (Double.track 7))
          = @SP_ERROR_OK Double.collaborators) as He by reflexivity.
  split; [exact Hs|].
  destruct (@playable_reads_accumulate Double.collaborators (Double.track 7)
              Double.with_session (mkSession 1) Hs He)
    as (t1 & t2 & E1 & _ & _ & P2 & Hne & _).
  exists t1, t2. split; [exact E1|]. split; [exact Hne|exact P2].
Defined.

Lemma None_means_unloaded_witness :
  In a_popularity [a_is_local; a_is_autolinked; a_is_starred; a_popularity]
  /\ fst (@get Double.collaborators a_is_loaded (Double.track 8)
            Double.no_session) = Ok (VBool false)
  /\ fst (@get Double.collaborators a_popularity (Double.track 8)
            Double.no_session) = Ok VNone.
Proof.
  assert (In a_popularity
            [a_is_local; a_is_autolinked; a_is_starred; a_popularity])
    as Ha by (simpl; tauto).
  assert (needs_session a_popularity = true
          -> w_session_instance Double.no_session <> None)
    as Hs by discriminate.
  assert (n_track_error (w_native Double.no_session)
            (Track.sp_track_of (Double.track 8))
          = @SP_ERROR_OK Double.collaborators) as He by reflexivity.
  assert (fst (@get Double.collaborators a_is_loaded (Double.track 8)
                 Double.no_session) = Ok (VBool false)) as Hl by reflexivity.
  split; [exact Ha|]. split; [exact Hl|].
  exact (proj2 (@None_means_unloaded Double.collaborators a_popularity
                  (Double.track 8) Double.no_session Ha Hs He) Hl).
Defined.

(** ** LocalTrack and the C int range *)

Lemma LocalTrack_init_spec_witness :
  fits_c_int (default (-1) (Some 210000)) = true
  /\ w_trace (snd (@LocalTrack.__init__ Double.collaborators
                     (Some "A") None (Some "Alb") (Some 210000)
                     Double.no_session))
     = [Call (c_sp_localtrack_create
                (Some (String.list_byte_of_string "A")) None
                (Some (String.list_byte_of_string "Alb")) 210000)].
Proof.
  assert (fits_c_int (default (-1) (Some 210000)) = true) as Hfit
    by reflexivity.
  split; [exact Hfit|].
  destruct (@LocalTrack_init_spec Double.collaborators
              (Some "A") None (Some "Alb") (Some 210000) Double.no_session)
    as (_ & _ & _ & Hin & _).
  destruct (Hin Hfit) as (_ & _ & T & _).
  exact T.
Defined.

Lemma LocalTrack_released_once_witness :
  fits_c_int (default (-1) None) = true
  /\ exists t : Track,
       fst (@LocalTrack.__init__ Double.collaborators
              (Some "A") (Some "T") None None Double.no_session) = Ok t
       /\ alive (cell_of t)
            (snd (@LocalTrack.__init__ Double.collaborators
                    (Some "A") (Some "T") None None Double.no_session))
          = true.
Proof.
  assert (fits_c_int (default (-1) None) = true) as Hfit by reflexivity.
  split; [exact Hfit|].
  destruct (@LocalTrack_released_once Double.collaborators
              (Some "A") (Some "T") None None Double.no_session Hfit)
    as (t & E & A & _).
  exists t. split; [exact E|exact A].
Defined.

(** A length one past the largest C int: OverflowError, no native call, no
    wrapper, no reference taken. *)
Example local_track_overflow :
  @LocalTrack.__init__ Double.collaborators
    (Some "A") None None (Some 2147483648) Double.no_session
  = (Raise (OverflowError 2147483648), Double.no_session)
  /\ fits_c_int 2147483647 = true
  /\ fits_c_int (-2147483648) = true
  /\ fits_c_int (-2147483649) = false.
Proof. repeat split. Qed.
